(** * gino.dialects.aiomysql: a shallow embedding and its properties

    The module adapts the aiomysql driver to gino: a connection pool with
    timeout-aware acquisition, cursors, prepared statements, transactions, and
    the isolation-level and server-version handling of the MySQL dialect.

    Conventions of the embedding.
    - Python [str] values are [string]s whose characters are the code points
      0..255.
    - Durations and clock readings ([time.monotonic()]) are exact numbers in
      [Z] (clock ticks) instead of floating point seconds.
    - A coroutine is a function from the world to an outcome and a new world;
      the world holds the clock, the log of calls made on collaborators, the
      state of the underlying aiomysql pool and the attributes the module's
      objects mutate.
    - Collaborators outside this module (the aiomysql pool and connection,
      gino's base classes, Python's built-in string operations) answer
      through an oracle [Env] that sees the world at the time of the call;
      what the dialect inherits from SQLAlchemy is a record [Dialect]. *)

From stdpp Require Import base numbers list strings gmap.
From Stdlib Require Import ZArith Lia Ascii String.

Open Scope string_scope.
Open Scope Z_scope.

(** ** Exceptions and outcomes *)

Inductive exn : Type :=
| TimeoutError                      (* asyncio.TimeoutError *)
| ArgumentError (msg : string)      (* sqlalchemy.exc.ArgumentError *)
| NotImplementedError
| TypeError
| ValueError
| IndexError
| AttributeError
| KeyError
| DriverError (code : nat).         (* any other exception of a collaborator *)

Inductive Res (A : Type) : Type :=
| Ok (a : A)
| Raise (e : exn).
Arguments Ok {A} a.
Arguments Raise {A} e.

(** ** Python values that cross the module's interfaces *)

#[warnings="-register-all"]
Inductive pyval : Type :=
| PyNone
| PyInt (z : Z)
| PyStr (s : string)
| PyBytes (s : string)
| PyTuple (l : list pyval)
| PyList (l : list pyval)
| PyDict (kvs : list (pyval * pyval)).

(** Truth value of an object, as [not row] tests it. *)
Definition py_truthy (v : pyval) : bool :=
  match v with
  | PyNone => false
  | PyInt z => negb (z =? 0)
  | PyStr s | PyBytes s => negb (String.eqb s EmptyString)
  | PyTuple l | PyList l => match l with [] => false | _ => true end
  | PyDict kvs => match kvs with [] => false | _ => true end
  end.

(** [x[0]] *)
Definition getitem0 (x : pyval) : Res pyval :=
  match x with
  | PyTuple (v :: _) | PyList (v :: _) => Ok v
  | PyTuple [] | PyList [] => Raise IndexError
  | PyStr (String c _) => Ok (PyStr (String c EmptyString))
  | PyBytes (String c _) => Ok (PyInt (Z.of_nat (nat_of_ascii c)))
  | PyStr EmptyString | PyBytes EmptyString => Raise IndexError
  | PyDict kvs =>
      match List.find (fun kv => match fst kv with PyInt 0 => true | _ => false end) kvs with
      | Some kv => Ok (snd kv)
      | None => Raise KeyError
      end
  | PyNone | PyInt _ => Raise TypeError
  end.

(** ** Strings *)

Definition chr (n : nat) : ascii := ascii_of_nat n.

(** [s.replace(a, b)] for one-character [a] and [b]. *)
Fixpoint str_replace (a b : ascii) (s : string) : string :=
  match s with
  | EmptyString => EmptyString
  | String c s' => String (if Ascii.eqb c a then b else c) (str_replace a b s')
  end.

(** [sep.join(l)] *)
Fixpoint str_join (sep : string) (l : list string) : string :=
  match l with
  | [] => EmptyString
  | [x] => x
  | x :: l' => x ++ sep ++ str_join sep l'
  end.

Fixpoint str_prefix (p s : string) : bool :=
  match p, s with
  | EmptyString, _ => true
  | String a p', String b s' => Ascii.eqb a b && str_prefix p' s'
  | String _ _, EmptyString => false
  end.

Fixpoint str_drop (n : nat) (s : string) : string :=
  match n, s with
  | O, _ => s
  | S n', String _ s' => str_drop n' s'
  | S _, EmptyString => EmptyString
  end.

(** ** Server version parsing *)

Module Version.

(** A component of the version tuple: [int] or [str]. *)
Inductive comp : Type :=
| VInt (z : Z)
| VStr (s : string).

Definition is_sep (c : ascii) : bool :=
  Ascii.eqb c "." || Ascii.eqb c "-".

(** [r.split(val)] for the pattern of one dot or dash: [cur] is the token
    being read. *)
Fixpoint split_from (cur : string) (val : string) : list string :=
  match val with
  | EmptyString => [cur]
  | String c rest =>
      if is_sep c then cur :: split_from EmptyString rest
      else split_from (cur ++ String c EmptyString) rest
  end.

Definition re_split (val : string) : list string := split_from EmptyString val.

(** Characters [int()] skips around the number: the C-locale white space,
    and U+0085 and U+00A0, which CPython maps to a space beforehand. *)
Definition int_space (c : ascii) : bool :=
  let n := nat_of_ascii c in
  ((9 <=? n)%nat && (n <=? 13)%nat) || (n =? 32)%nat || (n =? 133)%nat || (n =? 160)%nat.

Definition digit_val (c : ascii) : option Z :=
  let n := nat_of_ascii c in
  if ((48 <=? n)%nat && (n <=? 57)%nat)%bool then Some (Z.of_nat n - 48) else None.

Fixpoint skip_space (s : string) : string :=
  match s with
  | String c s' => if int_space c then skip_space s' else s
  | EmptyString => s
  end.

(** The digit scan of [PyLong_FromString] in base 10. [acc] is the value
    read so far, [prev_us] tells that the previous character was an
    underscore. The scan stops at the first character that is neither a
    digit nor an underscore and returns the value and the rest; an
    underscore after an underscore or at the end of the digits is an
    error. The caller guarantees that the first character is a digit. *)
Fixpoint scan_digits (acc : Z) (prev_us : bool) (s : string) : option (Z * string) :=
  match s with
  | EmptyString => if prev_us then None else Some (acc, s)
  | String c s' =>
      match digit_val c with
      | Some d => scan_digits (10 * acc + d) false s'
      | None =>
          if Ascii.eqb c "_" then
            if prev_us then None else scan_digits acc true s'
          else if prev_us then None else Some (acc, s)
      end
  end.

(** The optional sign in front of the digits. *)
Definition strip_sign (s : string) : Z * string :=
  match s with
  | String c s' =>
      if Ascii.eqb c "+" then (1, s')
      else if Ascii.eqb c "-" then (-1, s')
      else (1, s)
  | EmptyString => (1, s)
  end.

(** The interpreter's limit on the digits of a decimal string, at its
    default, [sys.get_int_max_str_digits()]. *)
Definition int_max_str_digits : nat := 4300.

(** How many digits the run of digits and underscores at the head of [s]
    holds. *)
Fixpoint count_digits (s : string) : nat :=
  match s with
  | EmptyString => 0%nat
  | String c s' =>
      match digit_val c with
      | Some _ => S (count_digits s')
      | None => if Ascii.eqb c "_" then count_digits s' else 0%nat
      end
  end.

(** [int(n)] on a string; [None] is [ValueError]. A number of more digits
    than the limit allows is refused like a malformed one. *)
Definition py_int (n : string) : option Z :=
  let '(sign, s) := strip_sign (skip_space n) in
  match s with
  | String c _ =>
      match digit_val c with
      | Some _ =>
          match scan_digits 0 false s with
          | Some (v, rest) =>
              if (int_max_str_digits <? count_digits s)%nat then None
              else
                match skip_space rest with
                | EmptyString => Some (sign * v)
                | _ => None
                end
          | None => None
          end
      | None => None
      end
  | EmptyString => None
  end.

(** The part of [s] that a run of any characters can cover: up to the
    first line feed. *)
Fixpoint first_line (s : string) : string :=
  match s with
  | EmptyString => EmptyString
  | String c s' => if Ascii.eqb c (chr 10) then EmptyString else String c (first_line s')
  end.

(** The pattern of the source (any run, the marker MariaDB, any run) tried
    on a line: the first group is greedy, so the longest prefix followed by
    the marker wins; the result holds the first and the third group. *)
Fixpoint match_line (s : string) : option (string * string) :=
  match s with
  | EmptyString => None
  | String c s' =>
      match match_line s' with
      | Some (g1, g3) => Some (String c g1, g3)
      | None =>
          if str_prefix "MariaDB" s then Some (EmptyString, str_drop 7 s) else None
      end
  end.

(** [re.match] of that pattern at the start of [n], then [.groups()]. *)
Definition re_match_mariadb (n : string) : option (list string) :=
  match match_line (first_line n) with
  | Some (g1, g3) => Some [g1; "MariaDB"; g3]
  | None => None
  end.

Definition nonempty (g : string) : bool := negb (String.eqb g EmptyString).

(** One turn of the loop of [_parse_server_version]. *)
Definition parse_step (version : list comp) (n : string) : list comp :=
  match py_int n with
  | Some z => version ++ [VInt z]
  | None =>
      match re_match_mariadb n with
      | Some groups => version ++ map VStr (List.filter nonempty groups)
      | None => version ++ [VStr n]
      end
  end.

Definition _parse_server_version (val : string) : list comp :=
  fold_left parse_step (re_split val) [].

End Version.

(** ** The world, the collaborators and the coroutine monad *)

(** A raw connection of the driver, known by its identity. *)
Definition conn : Type := nat.

(** Calls made on collaborators, in the order they were made. A cursor is
    named by the connection it was opened on. *)
Inductive event : Type :=
| EvPoolAcquire                                  (* self._pool.acquire() *)
| EvPoolRelease (c : conn)                       (* self._pool.release(conn) *)
| EvBegin (c : conn)                             (* conn.begin() *)
| EvCommit (c : conn)                            (* conn.commit() *)
| EvRollback (c : conn)                          (* conn.rollback() *)
| EvCursor (c : conn)                            (* connection.cursor() *)
| EvExecute (c : conn) (sql : string)            (* cursor.execute(sql) *)
| EvFetchone (c : conn)                          (* cursor.fetchone() *)
| EvCursorClose (c : conn)                       (* cursor.close() *)
| EvPrepare (c : conn) (stmt : string) (timeout : option Z)
                                                 (* conn.prepare(stmt, timeout=...) *)
| EvGetAttributes (prepared : pyval)             (* prepared.get_attributes() *)
| EvQuery (c : conn) (sql : string)              (* conn.query(sql) *)
| EvFetchrow (timeout : option Z)                (* self._cursor.fetchrow(timeout=...) *)
| EvProcessRows (rows : list pyval).             (* self._context.process_rows(rows) *)

Record World : Type := mkWorld {
  now : Z;                                       (* time.monotonic() *)
  trace : list event;                            (* oldest call first *)
  pool_free : list conn;                         (* idle connections of the raw pool *)
  pool_used : gset conn;                         (* connections handed out *)
  server_version_info : option (list Version.comp);  (* attribute of the dialect *)
  _cursor_description : pyval;                   (* attributes of DBAPICursor *)
  _status : pyval
}.

Definition tick (d : Z) (w : World) : World :=
  mkWorld (now w + d) (trace w) (pool_free w) (pool_used w)
          (server_version_info w) (_cursor_description w) (_status w).

Definition log (ev : event) (w : World) : World :=
  mkWorld (now w) (trace w ++ [ev]) (pool_free w) (pool_used w)
          (server_version_info w) (_cursor_description w) (_status w).

Definition set_pool (free : list conn) (used : gset conn) (w : World) : World :=
  mkWorld (now w) (trace w) free used
          (server_version_info w) (_cursor_description w) (_status w).

Definition set_server_version_info (v : option (list Version.comp)) (w : World) : World :=
  mkWorld (now w) (trace w) (pool_free w) (pool_used w)
          v (_cursor_description w) (_status w).

Definition set_cursor_description (d : pyval) (w : World) : World :=
  mkWorld (now w) (trace w) (pool_free w) (pool_used w)
          (server_version_info w) d (_status w).

Definition set_status (st : pyval) (w : World) : World :=
  mkWorld (now w) (trace w) (pool_free w) (pool_used w)
          (server_version_info w) (_cursor_description w) st.

(** What a collaborator answers: how long the call took and how it ended. *)
Record reply (A : Type) : Type := mkReply { took : Z; out : Res A }.
Arguments mkReply {A} took out.
Arguments took {A} r.
Arguments out {A} r.

(** The result object a connection holds after [conn.query]. *)
Record QueryResult : Type := mkQueryResult {
  description : pyval;
  affected_rows : pyval;
  rows : pyval
}.

(** The collaborators. Every answer may depend on the whole world at the
    time of the call, the log of earlier calls included. *)
Record Env : Type := mkEnv {
  pool_acquire_reply : World -> reply conn;      (* the raw pool's acquire *)
  unit_reply : World -> event -> reply unit;     (* calls awaited for their effect *)
  value_reply : World -> event -> reply pyval;   (* calls awaited for a value *)
  conn_result : World -> conn -> QueryResult;    (* conn._result *)
  conn_escape : conn -> pyval -> Res pyval;      (* conn.escape(obj) *)
  str_mod : string -> pyval -> Res string;       (* query % args *)
  bytes_decode : string -> Res string;           (* val.decode() *)
  str_upper : string -> string;                  (* val.upper() *)
  pool_keeps : World -> conn -> bool             (* on release: the connection is open
                                                    and outside a transaction, and the
                                                    raw pool is not closing *)
}.

Definition M (A : Type) : Type := World -> Res A * World.

Definition ret {A} (a : A) : M A := fun w => (Ok a, w).

Definition raise {A} (e : exn) : M A := fun w => (Raise e, w).

Definition bind {A B} (m : M A) (k : A -> M B) : M B :=
  fun w => match m w with
           | (Ok a, w') => k a w'
           | (Raise e, w') => (Raise e, w')
           end.

Notation "x <- m ;; k" := (bind m (fun x => k))
  (at level 100, m at next level, right associativity).
Notation "m ;;; k" := (bind m (fun _ => k))
  (at level 100, right associativity).

(** [try: m except: h] with a handler that sees the exception. *)
Definition try_except {A} (m : M A) (h : exn -> M A) : M A :=
  fun w => match m w with
           | (Ok a, w') => (Ok a, w')
           | (Raise e, w') => h e w'
           end.

Definition lift {A} (r : Res A) : M A := fun w => (r, w).

Definition modify (f : World -> World) : M unit := fun w => (Ok tt, f w).

(** [time.monotonic()] *)
Definition monotonic : M Z := fun w => (Ok (now w), w).

(** A call on a collaborator: it is logged, takes its time, and ends as the
    collaborator decides. *)
Definition call {A} (ev : event) (answer : World -> reply A) : M A :=
  fun w => let r := answer w in (out r, tick (took r) (log ev w)).

(** [asyncio.wait_for(m, timeout=t)] on an awaitable [m] that the caller
    has already made: with [t] zero or negative [m] is cancelled before it
    starts; otherwise [m] completes if it needs no more than [t]. A
    cancelled [m] leaves none of the effects of running it, and
    [TimeoutError] is raised once the time allowed has passed. *)
Definition wait_for {A} (m : M A) (t : Z) : M A :=
  fun w => let '(r, w') := m w in
           if (0 <? t) && (now w' - now w <=? t) then (r, w')
           else (Raise TimeoutError, tick (Z.max 0 t) w).

(** ** Pool *)

Section Pool.
Context (E : Env).

(** The hook given as [init]; [None] when there is none. *)
Variable _conn_init : option (conn -> M unit).

(** The aiomysql pool, already initialized, as its deque of idle connections
    and its set of used ones. Handing out [c]: it leaves the idle ones and
    joins the used ones. *)
Definition checkout (c : conn) (w : World) : World :=
  set_pool (filter (fun x => x <> c) (pool_free w)) ({[c]} ∪ pool_used w) w.

(** Taking [c] back: it leaves the used ones, and joins the idle ones only
    when the pool keeps it; a connection that is closed or in a transaction,
    or one returned to a closing pool, is dropped. *)
Definition checkin (c : conn) (w : World) : World :=
  set_pool (if pool_keeps E w c then pool_free w ++ [c] else pool_free w)
           (pool_used w ∖ {[c]}) w.

(** Awaiting what [self._pool.acquire()] returned: after the time it takes,
    the raw pool hands out the connection it chooses, or raises. *)
Definition raw_pool_acquired : M conn :=
  fun w =>
    let r := pool_acquire_reply E w in
    match out r with
    | Ok c => (Ok c, checkout c (tick (took r) w))
    | Raise e => (Raise e, tick (took r) w)
    end.

(** [self._pool.acquire()]: the call is made and gives the awaitable. *)
Definition raw_pool_acquire : M (M conn) :=
  fun w => (Ok raw_pool_acquired, log EvPoolAcquire w).

(** [await self._pool.release(conn)]: the pool takes the connection back
    when the call returns; a call that raises leaves the pool as it was. *)
Definition raw_pool_release (c : conn) : M unit :=
  call (EvPoolRelease c) (fun w => unit_reply E w (EvPoolRelease c)) ;;;
  modify (checkin c).

Definition release (c : conn) : M unit := raw_pool_release c.

Definition acquire (timeout : option Z) : M conn :=
  c <- match timeout with
       | None => pending <- raw_pool_acquire ;; pending
       | Some t => pending <- raw_pool_acquire ;; wait_for pending t
       end ;;
  match _conn_init with
  | Some init =>
      try_except (init c) (fun e => release c ;;; raise e) ;;;
      ret c
  | None => ret c
  end.

End Pool.

(** ** Execution context, cursors and prepared statements *)

(** The part of gino's execution context the module reads. *)
Record Context : Type := mkContext {
  ctx_timeout : option Z;                        (* context.timeout *)
  ctx_statement : string                         (* context.statement *)
}.

(** A [timeout] keyword argument: left at [base.DEFAULT], or given. *)
Inductive timeout_arg : Type :=
| DEFAULT
| Given (t : option Z).

Record PreparedStatement : Type := mkPreparedStatement {
  _prepared : pyval;
  ps_clause : pyval;
  ps_context : Context
}.

Section AiomysqlCursor.
Context (E : Env).
Variable _context : Context.

(** [self._context.process_rows(rows)], a method of gino's base context. *)
Definition process_rows (rows : list pyval) : M pyval :=
  call (EvProcessRows rows) (fun w => value_reply E w (EvProcessRows rows)).

Definition next (timeout : timeout_arg) : M pyval :=
  let timeout := match timeout with
                 | DEFAULT => ctx_timeout _context
                 | Given t => t
                 end in
  row <- call (EvFetchrow timeout) (fun w => value_reply E w (EvFetchrow timeout)) ;;
  if negb (py_truthy row) then ret PyNone
  else
    processed <- process_rows [row] ;;
    lift (getitem0 processed).

End AiomysqlCursor.

Section DBAPICursor.
Context (E : Env).

(** [self._conn.acquire]: the connection holder gino's engine passes in. *)
Variable dbapi_acquire : option Z -> M conn.

(** [tuple(conn.escape(arg) for arg in args)]: from left to right, up to
    the first failure. *)
Fixpoint escape_each (c : conn) (args : list pyval) : Res (list pyval) :=
  match args with
  | [] => Ok []
  | arg :: rest =>
      match conn_escape E c arg with
      | Ok v =>
          match escape_each c rest with
          | Ok vs => Ok (v :: vs)
          | Raise e => Raise e
          end
      | Raise e => Raise e
      end
  end.

(** [dict((key, conn.escape(val)) for (key, val) in args.items())] *)
Fixpoint escape_items (c : conn) (items : list (pyval * pyval)) : Res (list (pyval * pyval)) :=
  match items with
  | [] => Ok []
  | (k, val) :: rest =>
      match conn_escape E c val with
      | Ok v =>
          match escape_items c rest with
          | Ok kvs => Ok ((k, v) :: kvs)
          | Raise e => Raise e
          end
      | Raise e => Raise e
      end
  end.

Definition _escape_args (args : pyval) (c : conn) : Res pyval :=
  match args with
  | PyTuple l | PyList l =>
      match escape_each c l with
      | Ok vs => Ok (PyTuple vs)
      | Raise e => Raise e
      end
  | PyDict kvs =>
      match escape_items c kvs with
      | Ok kvs' => Ok (PyDict kvs')
      | Raise e => Raise e
      end
  | _ => conn_escape E c args
  end.

(** The first lines of [prepare] and of [async_execute]: acquire, and
    charge the time it took to a bounded timeout. *)
Definition acquire_charged (timeout : option Z) : M (conn * option Z) :=
  match timeout with
  | None =>
      c <- dbapi_acquire timeout ;;
      ret (c, timeout)
  | Some t =>
      before <- monotonic ;;
      c <- dbapi_acquire timeout ;;
      after <- monotonic ;;
      ret (c, Some (t - (after - before)))
  end.

Definition prepare (context : Context) (clause : pyval) : M PreparedStatement :=
  let timeout := ctx_timeout context in
  acquired <- acquire_charged timeout ;;
  let '(c, timeout) := acquired in
  prepared <- call (EvPrepare c (ctx_statement context) timeout)
                   (fun w => value_reply E w (EvPrepare c (ctx_statement context) timeout)) ;;
  try_except
    (attrs <- call (EvGetAttributes prepared)
                   (fun w => value_reply E w (EvGetAttributes prepared)) ;;
     modify (set_cursor_description attrs))
    (fun e => match e with
              | TypeError => modify (set_cursor_description (PyList []))
              | _ => raise e
              end) ;;;
  ret (mkPreparedStatement prepared clause context).

Definition async_execute (query : string) (timeout : option Z) (args : pyval)
  : M pyval :=
  acquired <- acquire_charged timeout ;;
  let '(c, timeout) := acquired in
  query <- match args with
           | PyNone => ret query
           | _ => escaped <- lift (_escape_args args c) ;;
                  lift (str_mod E query escaped)
           end ;;
  call (EvQuery c query) (fun w => unit_reply E w (EvQuery c query)) ;;;
  result <- (fun w => (Ok (conn_result E w c), w)) ;;
  modify (set_cursor_description (description result)) ;;;
  modify (set_status (affected_rows result)) ;;;
  ret (rows result).

End DBAPICursor.

(** ** Transaction *)

Record Transaction : Type := mkTransaction {
  _conn : conn;
  _set_isolation : option (conn -> M unit)
}.

Section Transaction.
Context (E : Env).

Definition begin (self : Transaction) : M unit :=
  call (EvBegin (_conn self)) (fun w => unit_reply E w (EvBegin (_conn self))) ;;;
  match _set_isolation self with
  | Some set_isolation => set_isolation (_conn self)
  | None => ret tt
  end.

Definition commit (self : Transaction) : M unit :=
  call (EvCommit (_conn self)) (fun w => unit_reply E w (EvCommit (_conn self))).

Definition rollback (self : Transaction) : M unit :=
  call (EvRollback (_conn self)) (fun w => unit_reply E w (EvRollback (_conn self))).

End Transaction.

(** ** The dialect: isolation level and server version *)

(** What [AiomysqlDialect] inherits from SQLAlchemy's [MySQLDialect]. *)
Record Dialect : Type := mkDialect {
  name : string;                                 (* self.name *)
  _isolation_lookup : gset string;               (* self._isolation_lookup *)
  isolation_level : option string;               (* self.isolation_level *)
  _is_mysql : option (list Version.comp) -> bool (* self._is_mysql, a property
                                                    of the cached version *)
}.

(** [a >= b] on version components; [int] against [str] is a [TypeError]. *)
Definition comp_eqb (a b : Version.comp) : bool :=
  match a, b with
  | Version.VInt m, Version.VInt n => m =? n
  | Version.VStr s, Version.VStr t => String.eqb s t
  | _, _ => false
  end.

Definition comp_ge (a b : Version.comp) : Res bool :=
  match a, b with
  | Version.VInt m, Version.VInt n => Ok (n <=? m)
  | Version.VStr s, Version.VStr t =>
      Ok (match String.compare s t with Lt => false | _ => true end)
  | _, _ => Raise TypeError
  end.

(** [a >= b] on tuples: the first pair of unequal components decides, and
    without one the lengths do. *)
Fixpoint tuple_ge (a b : list Version.comp) : Res bool :=
  match a, b with
  | _, [] => Ok true
  | [], _ :: _ => Ok false
  | x :: a', y :: b' => if comp_eqb x y then tuple_ge a' b' else comp_ge x y
  end.

Section AiomysqlDialect.
Context (E : Env) (self : Dialect).

Definition cursor (c : conn) : M unit :=
  call (EvCursor c) (fun w => unit_reply E w (EvCursor c)).

Definition execute (c : conn) (sql : string) : M unit :=
  call (EvExecute c sql) (fun w => unit_reply E w (EvExecute c sql)).

Definition fetchone (c : conn) : M pyval :=
  call (EvFetchone c) (fun w => value_reply E w (EvFetchone c)).

Definition close (c : conn) : M unit :=
  call (EvCursorClose c) (fun w => unit_reply E w (EvCursorClose c)).

Definition invalid_level_message (level : string) : string :=
  "Invalid value '" ++ level ++ "' for isolation_level. "
    ++ "Valid isolation levels for " ++ name self ++ " are "
    ++ str_join ", " (elements (_isolation_lookup self)).

Definition _set_isolation_level (connection : conn) (level : string) : M unit :=
  if negb (bool_decide (level ∈ _isolation_lookup self)) then
    raise (ArgumentError (invalid_level_message level))
  else
    cursor connection ;;;
    execute connection ("SET SESSION TRANSACTION ISOLATION LEVEL " ++ level) ;;;
    execute connection "COMMIT" ;;;
    close connection.

Definition set_isolation_level (connection : conn) (level : string) : M unit :=
  let level := str_replace "_" " " level in
  _set_isolation_level connection level.

(** [transaction(raw_conn, args, kwargs)]; the keyword arguments that
    matter hold strings. *)
Definition transaction (raw_conn : conn) (kwargs : gmap string string) : Transaction :=
  let _set_isolation :=
    match kwargs !! "isolation" with
    | Some level => Some (fun c => set_isolation_level c level)
    | None => None
    end in
  mkTransaction raw_conn _set_isolation.

Definition on_connect : option (conn -> M unit) :=
  match isolation_level self with
  | Some level => Some (fun c => set_isolation_level c level)
  | None => None
  end.

(** [val.decode()] when [val] is [bytes]; a [str] stays; anything else has
    neither the methods of [str] nor can the pattern split it. *)
Definition as_text (val : pyval) (otherwise : exn) : M string :=
  match val with
  | PyStr s => ret s
  | PyBytes b => lift (bytes_decode E b)
  | _ => raise otherwise
  end.

Definition _get_server_version_info (connection : conn) : M (list Version.comp) :=
  cursor connection ;;;
  execute connection "SELECT VERSION()" ;;;
  row <- fetchone connection ;;
  val <- lift (getitem0 row) ;;
  close connection ;;;
  val <- as_text val TypeError ;;
  ret (Version._parse_server_version val).

Definition get_isolation_level (connection : conn) : M string :=
  cached <- (fun w => (Ok (server_version_info w), w)) ;;
  match cached with
  | None =>
      v <- _get_server_version_info connection ;;
      modify (set_server_version_info (Some v))
  | Some _ => ret tt
  end ;;;
  cursor connection ;;;
  info <- (fun w => (Ok (server_version_info w), w)) ;;
  recent <- (if _is_mysql self info then
               match info with
               | Some v => lift (tuple_ge v [Version.VInt 5; Version.VInt 7; Version.VInt 20])
               | None => raise TypeError
               end
             else ret false) ;;
  (if recent then execute connection "SELECT @@transaction_isolation"
   else execute connection "SELECT @@tx_isolation") ;;;
  row <- fetchone connection ;;
  match row with
  | PyNone => raise NotImplementedError
  | _ =>
      val <- lift (getitem0 row) ;;
      close connection ;;;
      val <- as_text val AttributeError ;;
      ret (str_replace "-" " " (str_upper E val))
  end.

End AiomysqlDialect.

(** ** Vocabulary of the statements *)

Module VersionSpec.
Import Version.

(** What one token contributes to the version tuple. *)
Definition component (n : string) : list comp := parse_step [] n.

Fixpoint all_chars (P : ascii -> bool) (s : string) : bool :=
  match s with
  | EmptyString => true
  | String c s' => P c && all_chars P s'
  end.

Definition is_digit (c : ascii) : bool :=
  match digit_val c with Some _ => true | None => false end.

(** A token made of decimal digits only, and at least one. *)
Definition all_numeric (n : string) : bool :=
  nonempty n && all_chars is_digit n.

(** The number a run of decimal digits denotes. *)
Fixpoint dec_from (acc : Z) (s : string) : Z :=
  match s with
  | EmptyString => acc
  | String c s' => dec_from (10 * acc + (Z.of_nat (nat_of_ascii c) - 48)) s'
  end.

Definition dec_value (n : string) : Z := dec_from 0 n.

Definition is_str (c : comp) : bool :=
  match c with VStr _ => true | VInt _ => false end.

(** The text of the components, in order. *)
Fixpoint text_of (l : list comp) : string :=
  match l with
  | [] => EmptyString
  | VStr s :: l' => s ++ text_of l'
  | VInt _ :: l' => text_of l'
  end.

(** The characters [int()] can accept at all. *)
Definition int_char (c : ascii) : bool :=
  int_space c || is_digit c || Ascii.eqb c "_" || Ascii.eqb c "+" || Ascii.eqb c "-".

(** [val] without its dots and dashes. *)
Fixpoint strip_seps (val : string) : string :=
  match val with
  | EmptyString => EmptyString
  | String c rest => if is_sep c then strip_seps rest else String c (strip_seps rest)
  end.

Definition no_sep (c : ascii) : bool := negb (is_sep c).

End VersionSpec.

(** The world once [self._pool.acquire()] has been called, what the raw
    pool answers to the wait that starts there, and the world once it has
    answered. *)
Definition called (w : World) : World := log EvPoolAcquire w.

Definition pool_answer (E : Env) (w : World) : reply conn :=
  pool_acquire_reply E (called w).

Definition answered (E : Env) (w : World) : World :=
  tick (took (pool_answer E w)) (called w).

(** The world once the release of [c] has been awaited, before the pool
    takes the connection back, and after. *)
Definition release_returned (E : Env) (c : conn) (w : World) : World :=
  tick (took (unit_reply E w (EvPoolRelease c))) (log (EvPoolRelease c) w).

Definition released (E : Env) (c : conn) (w : World) : World :=
  checkin E c (release_returned E c w).

(** The timeout leaves the raw pool the time it needs. *)
Definition in_time (E : Env) (timeout : option Z) (w : World) : Prop :=
  match timeout with
  | Some t => 0 < t /\ took (pool_answer E w) <= t
  | None => True
  end.

(** The reading of the specification for a failing hook: the caller gets
    the hook's error, and the connection is among the idle ones again. *)
Definition hook_failure_reidles
    (E : Env) (init : conn -> M unit) (timeout : option Z) (w : World) : Prop :=
  forall (c : conn) (e : exn) (w2 : World),
    out (pool_answer E w) = Ok c ->
    in_time E timeout w ->
    init c (checkout c (answered E w)) = (Raise e, w2) ->
    fst (acquire E (Some init) timeout w) = Raise e
    /\ In c (pool_free (snd (acquire E (Some init) timeout w))).

(** The row lists handed to [process_rows], oldest first. *)
Fixpoint processed (tr : list event) : list (list pyval) :=
  match tr with
  | [] => []
  | EvProcessRows rows :: tr' => rows :: processed tr'
  | _ :: tr' => processed tr'
  end.

(** The timeout a call of [next] works with. *)
Definition effective_timeout (ctx : Context) (timeout : timeout_arg) : option Z :=
  match timeout with
  | DEFAULT => ctx_timeout ctx
  | Given t => t
  end.

(** What is left of a budget once the acquire that moved the clock from
    [before] to [after] is charged to it. *)
Definition remaining (timeout : option Z) (before after : Z) : option Z :=
  match timeout with
  | Some t => Some (t - (after - before))
  | None => None
  end.

(** The reading of the specification for [prepare]: once the budget is used
    up by the acquire, [prepare] fails with a timeout error and the driver is
    never asked to prepare with what is left. *)
Definition spent_budget_fails_fast
    (E : Env) (acq : option Z -> M conn) (ctx : Context) (clause : pyval) (w : World) : Prop :=
  forall (t : Z) (c : conn) (w1 : World),
    ctx_timeout ctx = Some t ->
    acq (Some t) w = (Ok c, w1) ->
    t - (now w1 - now w) <= 0 ->
    fst (prepare E acq ctx clause w) = Raise TimeoutError
    /\ forall left : Z,
         left <= 0 ->
         ~ In (EvPrepare c (ctx_statement ctx) (Some left))
              (trace (snd (prepare E acq ctx clause w))).

(** A coroutine refuses to act in a world when it raises and calls nothing. *)
Definition refuses {A} (m : M A) (w : World) : Prop :=
  (exists e, fst (m w) = Raise e) /\ trace (snd (m w)) = trace w.

(** The version query of [_get_server_version_info], and how often a log
    holds it. *)
Definition is_version_query (ev : event) : bool :=
  match ev with
  | EvExecute _ sql => String.eqb sql "SELECT VERSION()"
  | _ => false
  end.

Definition version_queries (tr : list event) : nat :=
  List.length (List.filter is_version_query tr).

(** A coroutine that only adds calls to the log, at most [n] of them
    version queries, and leaves the cached version alone. *)
Definition emits {A} (n : nat) (m : M A) : Prop :=
  forall w : World,
    server_version_info (snd (m w)) = server_version_info w
    /\ exists d : list event,
         trace (snd (m w)) = (trace w ++ d)%list /\ (version_queries d <= n)%nat.

(** [get_isolation_level] called on one connection after the other, whatever
    each call returns or raises. *)
Fixpoint get_isolation_levels (E : Env) (self : Dialect) (cs : list conn) (w : World) : World :=
  match cs with
  | [] => w
  | c :: cs' => get_isolation_levels E self cs' (snd (get_isolation_level E self c w))
  end.

(** ** Concrete collaborators for the examples *)

Module Scenario.

(** The last statement executed, which decides what [fetchone] yields. *)
Fixpoint last_execute (tr : list event) (acc : string) : string :=
  match tr with
  | [] => acc
  | EvExecute _ sql :: tr' => last_execute tr' sql
  | _ :: tr' => last_execute tr' acc
  end.

(** A MySQL 8.0.31 server behind a pool that needs 3 ticks to hand out
    connection 7; every other call takes 1 tick and succeeds. *)
Definition server_value (w : World) (ev : event) : reply pyval :=
  match ev with
  | EvFetchone _ =>
      let sql := last_execute (trace w) EmptyString in
      if String.eqb sql "SELECT VERSION()" then
        mkReply 1 (Ok (PyTuple [PyStr "8.0.31"]))
      else if String.eqb sql "SELECT @@transaction_isolation" then
        mkReply 1 (Ok (PyTuple [PyStr "REPEATABLE-READ"]))
      else mkReply 1 (Ok PyNone)
  | EvFetchrow (Some _) => mkReply 1 (Ok (PyTuple [PyInt 1; PyStr "a"]))
  | EvFetchrow None => mkReply 1 (Ok (PyTuple []))
  | EvProcessRows rows => mkReply 0 (Ok (PyList rows))
  | EvPrepare _ _ _ => mkReply 1 (Ok (PyInt 1))
  | _ => mkReply 1 (Ok PyNone)
  end.

Definition quote (v : pyval) : Res pyval :=
  match v with
  | PyStr s => Ok (PyStr ("'" ++ s ++ "'"))
  | PyInt z => Ok (PyInt z)
  | PyNone => Ok (PyStr "NULL")
  | _ => Raise ValueError
  end.

Definition env : Env :=
  mkEnv (fun _ => mkReply 3 (Ok 7%nat))
        (fun _ _ => mkReply 1 (Ok tt))
        server_value
        (fun _ _ => mkQueryResult PyNone (PyInt 0) (PyTuple []))
        (fun _ => quote)
        (fun q _ => Ok q)
        (fun b => Ok b)
        (fun s => s)
        (fun _ _ => true).

Definition w0 : World :=
  mkWorld 0 [] [7%nat; 8%nat] ∅ None PyNone PyNone.

Definition mysql : Dialect :=
  mkDialect "mysql"
            ({["SERIALIZABLE"]} ∪ {["READ UNCOMMITTED"]} ∪ {["READ COMMITTED"]}
               ∪ {["REPEATABLE READ"]})
            None
            (fun v => match v with
                      | Some l => negb (existsb (comp_eqb (Version.VStr "MariaDB")) l)
                      | None => true
                      end).

(** A hook that fails after 4 ticks, and one that succeeds after 4. *)
Definition failing_hook (c : conn) : M unit :=
  fun w => (Raise (DriverError 1), tick 4 w).

Definition slow_hook (c : conn) : M unit :=
  fun w => (Ok tt, tick 4 w).

End Scenario.

(** ** Further operations of the module *)

(** [x[i]] *)
Definition getitem (i : nat) (x : pyval) : Res pyval :=
  match x with
  | PyTuple l | PyList l =>
      match nth_error l i with
      | Some v => Ok v
      | None => Raise IndexError
      end
  | PyStr s =>
      match String.get i s with
      | Some c => Ok (PyStr (String c EmptyString))
      | None => Raise IndexError
      end
  | PyBytes s =>
      match String.get i s with
      | Some c => Ok (PyInt (Z.of_nat (nat_of_ascii c)))
      | None => Raise IndexError
      end
  | PyDict kvs =>
      match List.find (fun kv => match fst kv with
                                 | PyInt z => z =? Z.of_nat i
                                 | _ => false
                                 end) kvs with
      | Some kv => Ok (snd kv)
      | None => Raise KeyError
      end
  | PyNone | PyInt _ => Raise TypeError
  end.

Section PreparedStatementOps.

(** The driver's prepared statement held in [self._prepared]. *)
Variable prepared_fetchrow : list pyval -> M pyval.   (* fetchrow, on the parameters *)
Variable prepared_fetch : list pyval -> M pyval.      (* fetch, on the parameters *)
Variable prepared_get_statusmsg : M pyval.            (* get_statusmsg() *)

Definition _execute (params : list pyval) (one : bool) : M (pyval * pyval) :=
  rv <- (if one then
           rv <- prepared_fetchrow params ;;
           ret (match rv with
                | PyNone => PyList []
                | _ => PyList [rv]
                end)
         else prepared_fetch params) ;;
  status <- prepared_get_statusmsg ;;
  ret (status, rv).

End PreparedStatementOps.

Section Streaming.
Context (E : Env).
Variable _context : Context.

(** The driver's cursor held in [self._cursor], and the asynchronous
    iterator held in [self._iterator]. *)
Variable cursor_fetch : Z -> option Z -> M (list pyval).   (* fetch(n, timeout=...) *)
Variable cursor_forward : Z -> option Z -> M unit.         (* forward(n, timeout=...) *)
Variable iterator_anext : M pyval.                         (* __anext__() *)

Definition many (n : Z) (timeout : timeout_arg) : M pyval :=
  let timeout := match timeout with
                 | DEFAULT => ctx_timeout _context
                 | Given t => t
                 end in
  rows <- cursor_fetch n timeout ;;
  process_rows E rows.

Definition forward (n : Z) (timeout : timeout_arg) : M unit :=
  let timeout := match timeout with
                 | DEFAULT => ctx_timeout _context
                 | Given t => t
                 end in
  cursor_forward n timeout.

Definition __anext__ : M pyval :=
  row <- iterator_anext ;;
  processed <- process_rows E [row] ;;
  lift (getitem0 processed).

End Streaming.

Section ExecutionContext.
Context (E : Env).
Variable dbapi_acquire : option Z -> M conn.

(** What the context reads from its dialect and its root connection. *)
Variable supports_unicode_statements : bool.
Variable positional : bool.
Variable _encoder : string -> string.             (* self.dialect._encoder(stmt)[0] *)
Variable execute_sequence_format : pyval.         (* self.dialect.execute_sequence_format() *)
Variable _cursor_execute : string -> pyval -> M unit.
                                                  (* conn._cursor_execute(self.cursor, stmt,
                                                     default_params, context=self) *)

(** [type_] is [None], or maps the wire type of the column to a result
    processor or to nothing. *)
Definition _execute_scalar
    (stmt : string) (type_ : option (pyval -> option (pyval -> Res pyval))) : M pyval :=
  let stmt := if negb supports_unicode_statements then _encoder stmt else stmt in
  let default_params := if positional then execute_sequence_format else PyDict [] in
  _cursor_execute stmt default_params ;;;
  r <- async_execute E dbapi_acquire stmt None default_params ;;
  r <- lift (getitem0 r) ;;
  r <- lift (getitem0 r) ;;
  match type_ with
  | Some _cached_result_processor =>
      desc <- (fun w => (Ok (_cursor_description w), w)) ;;
      column <- lift (getitem 0 desc) ;;
      coltype <- lift (getitem 1 column) ;;
      match _cached_result_processor coltype with
      | Some proc => lift (proc r)
      | None => ret r
      end
  | None => ret r
  end.

End ExecutionContext.

(** ** Construction of the dialect and of its pool *)

(** The connection target: the fields of the URL the pool reads. *)
Record URL : Type := mkURL {
  host : pyval;
  port : pyval;
  username : pyval;
  database : pyval;
  password : pyval
}.

Record PoolObject : Type := mkPoolObject {
  _url : URL;
  _loop : pyval;
  _kwargs : gmap string pyval;
  _conn_init : option (conn -> M unit)
}.

Section Construction.
Context (E : Env) (self : Dialect).

(** The parameter names of [aiomysql.create_pool] and [aiomysql.connect]. *)
Variable driver_parameters : gset string.

(** [aiomysql.create_pool], called with the arguments as keywords. *)
Variable create_pool : gmap string pyval -> M unit.

Definition init_kwargs : gset string := driver_parameters ∖ {["echo"]}.

(** One turn of the loop of [__init__]: [k] moves from the keyword
    arguments to the pool's when it is there. *)
Definition take_kwarg (state : gmap string pyval * gmap string pyval) (k : string)
  : gmap string pyval * gmap string pyval :=
  let '(_pool_kwargs, kwargs) := state in
  match kwargs !! k with
  | Some v => (<[k := v]> _pool_kwargs, delete k kwargs)
  | None => (_pool_kwargs, kwargs)
  end.

(** [__init__]: the pool's keyword arguments, and those left for
    SQLAlchemy's dialect. *)
Definition dialect_init (kwargs : gmap string pyval)
  : gmap string pyval * gmap string pyval :=
  foldl take_kwarg (∅, kwargs) (elements init_kwargs).

(** The arguments [_init] builds for [create_pool]. *)
Definition _init_args (pool : PoolObject) : gmap string pyval :=
  <["password" := password (_url pool)]>
    (<["db" := database (_url pool)]>
       (<["user" := username (_url pool)]>
          (<["port" := port (_url pool)]>
             (<["host" := host (_url pool)]>
                (<["loop" := _loop pool]> (_kwargs pool)))))).

Definition _init (pool : PoolObject) : M PoolObject :=
  create_pool (_init_args pool) ;;;
  ret pool.

Definition init_pool (_pool_kwargs : gmap string pyval) (url : URL) (loop : pyval)
  : M PoolObject :=
  _init (mkPoolObject url loop _pool_kwargs (on_connect E self)).

End Construction.

(** ** More vocabulary of the statements *)

(** Calls awaited one after the other for their effect, up to the first
    that raises. *)
Fixpoint run_calls (E : Env) (evs : list event) : M unit :=
  match evs with
  | [] => ret tt
  | ev :: rest => call ev (fun w => unit_reply E w ev) ;;; run_calls E rest
  end.

(** What [_set_isolation_level] sends for a recognized level. *)
Definition isolation_calls (c : conn) (level : string) : list event :=
  [EvCursor c;
   EvExecute c ("SET SESSION TRANSACTION ISOLATION LEVEL " ++ level);
   EvExecute c "COMMIT";
   EvCursorClose c].

(** A coroutine whose every return, value and world, has property [R]. *)
Definition ensures {A} (R : A -> World -> Prop) (m : M A) : Prop :=
  forall (w w' : World) (a : A), m w = (Ok a, w') -> R a w'.

(** The end of [get_isolation_level]: the row is fetched and its first
    column becomes the name of the level. *)
Definition fetch_level (E : Env) (c : conn) : M string :=
  row <- fetchone E c ;;
  match row with
  | PyNone => raise NotImplementedError
  | _ =>
      val <- lift (getitem0 row) ;;
      close E c ;;;
      val <- as_text E val AttributeError ;;
      ret (str_replace "-" " " (str_upper E val))
  end.

(** [(5, 7, 20) <= (a, b, c)] in the order of tuples. *)
Definition at_least_5_7_20 (a b c : Z) : bool :=
  (5 <? a) || ((a =? 5) && ((7 <? b) || ((b =? 7) && (20 <=? c)))).

(** The statement that reads the isolation level of the session. *)
Definition isolation_query (recent : bool) : string :=
  if recent then "SELECT @@transaction_isolation" else "SELECT @@tx_isolation".

(** Whether the server is MySQL 5.7.20 or later, as [get_isolation_level]
    decides it from the cached version. *)
Definition is_recent (self : Dialect) (info : option (list Version.comp)) : M bool :=
  if _is_mysql self info then
    match info with
    | Some v => lift (tuple_ge v [Version.VInt 5; Version.VInt 7; Version.VInt 20])
    | None => raise TypeError
    end
  else ret false.

(** [get_isolation_level] from the opening of its cursor onwards. *)
Definition read_level (E : Env) (self : Dialect) (c : conn) : M string :=
  cursor E c ;;;
  info <- (fun w => (Ok (server_version_info w), w)) ;;
  recent <- is_recent self info ;;
  execute E c (isolation_query recent) ;;;
  fetch_level E c.

(** [get_isolation_level] up to the sending of the isolation query. *)
Definition ask_level (E : Env) (self : Dialect) (c : conn) : M unit :=
  cached <- (fun w => (Ok (server_version_info w), w)) ;;
  match cached with
  | None =>
      v <- _get_server_version_info E c ;;
      modify (set_server_version_info (Some v))
  | Some _ => ret tt
  end ;;;
  cursor E c ;;;
  info <- (fun w => (Ok (server_version_info w), w)) ;;
  recent <- is_recent self info ;;
  execute E c (isolation_query recent).

(** The text of a column: a [str] as it is, [bytes] decoded. *)
Definition column_text (E : Env) (val : pyval) (text : string) : Prop :=
  val = PyStr text \/ exists b : string, val = PyBytes b /\ bytes_decode E b = Ok text.

(** [text] is the text of the first column of the row that the driver
    answers to a fetch awaited in [w]. *)
Definition first_column_fetched (E : Env) (c : conn) (w : World) (text : string) : Prop :=
  exists row val : pyval,
    out (value_reply E w (EvFetchone c)) = Ok row
    /\ getitem0 row = Ok val
    /\ column_text E val text.

(** The world after a fetch and the closing of the cursor, both awaited
    from [w] on. *)
Definition fetched_and_closed (E : Env) (c : conn) (w : World) : World :=
  let w1 := tick (took (value_reply E w (EvFetchone c))) (log (EvFetchone c) w) in
  tick (took (unit_reply E w1 (EvCursorClose c))) (log (EvCursorClose c) w1).

Definition no_dash (ch : ascii) : bool := negb (Ascii.eqb ch "-").

(** The text [async_execute] sends: the query as it is without
    arguments, and the query formatted with the escaped arguments otherwise. *)
Definition rendered (E : Env) (query : string) (args : pyval) (c : conn) : Res string :=
  match args with
  | PyNone => Ok query
  | _ =>
      match _escape_args E args c with
      | Ok escaped => str_mod E query escaped
      | Raise e => Raise e
      end
  end.

(** The reading of the specification for the digits: every token of
    decimal digits comes out as the integer it denotes. *)
Definition numeric_tokens_are_integers (val : string) : Prop :=
  forall n : string,
    n ∈ Version.re_split val ->
    VersionSpec.all_numeric n = true ->
    VersionSpec.component n = [Version.VInt (VersionSpec.dec_value n)].

(** How many dots and dashes [val] holds. *)
Fixpoint count_seps (val : string) : nat :=
  match val with
  | EmptyString => 0%nat
  | String c rest => ((if Version.is_sep c then 1 else 0) + count_seps rest)%nat
  end.

(** [s] holds the marker somewhere. *)
Definition holds_marker (s : string) : Prop :=
  exists a b : string, s = a ++ "MariaDB" ++ b.

Module Examples.

Definition url : URL :=
  mkURL (PyStr "db.example") (PyInt 3306) (PyStr "gino") (PyStr "app") (PyStr "secret").

Definition driver_parameters : gset string :=
  {["host"]} ∪ {["port"]} ∪ {["user"]} ∪ {["password"]} ∪ {["db"]} ∪ {["loop"]}
    ∪ {["echo"]} ∪ {["minsize"]} ∪ {["maxsize"]}.

Definition kwargs : gmap string pyval :=
  <["host" := PyStr "other.example"]>
    (<["echo" := PyInt 1]>
       (<["maxsize" := PyInt 5]>
          (<["strategy" := PyStr "plain"]> ∅))).

(** A dialect configured with a recognized level, and one with a level
    that is not. *)
Definition serializable : Dialect :=
  mkDialect "mysql" (_isolation_lookup Scenario.mysql) (Some "SERIALIZABLE")
            (_is_mysql Scenario.mysql).

Definition misconfigured : Dialect :=
  mkDialect "mysql" (_isolation_lookup Scenario.mysql) (Some "SNAPSHOT")
            (_is_mysql Scenario.mysql).

(** A server that never returns a row. *)
Definition silent_env : Env :=
  mkEnv (pool_acquire_reply Scenario.env)
        (unit_reply Scenario.env)
        (fun _ _ => mkReply 1 (Ok PyNone))
        (conn_result Scenario.env)
        (conn_escape Scenario.env)
        (str_mod Scenario.env)
        (bytes_decode Scenario.env)
        (str_upper Scenario.env)
        (pool_keeps Scenario.env).

(** A connection whose query fails. *)
Definition failing_query_env : Env :=
  mkEnv (pool_acquire_reply Scenario.env)
        (fun _ ev => match ev with
                     | EvQuery _ _ => mkReply 1 (Raise (DriverError 2))
                     | _ => mkReply 1 (Ok tt)
                     end)
        (value_reply Scenario.env)
        (conn_result Scenario.env)
        (conn_escape Scenario.env)
        (str_mod Scenario.env)
        (bytes_decode Scenario.env)
        (str_upper Scenario.env)
        (pool_keeps Scenario.env).

(** A raw pool that drops what is released to it: the connection comes
    back in a transaction. *)
Definition dropping_env : Env :=
  mkEnv (pool_acquire_reply Scenario.env)
        (unit_reply Scenario.env)
        (value_reply Scenario.env)
        (conn_result Scenario.env)
        (conn_escape Scenario.env)
        (str_mod Scenario.env)
        (bytes_decode Scenario.env)
        (str_upper Scenario.env)
        (fun _ _ => false).

(** A raw pool whose release raises. *)
Definition failing_release_env : Env :=
  mkEnv (pool_acquire_reply Scenario.env)
        (fun _ ev => match ev with
                     | EvPoolRelease _ => mkReply 1 (Raise (DriverError 9))
                     | _ => mkReply 1 (Ok tt)
                     end)
        (value_reply Scenario.env)
        (conn_result Scenario.env)
        (conn_escape Scenario.env)
        (str_mod Scenario.env)
        (bytes_decode Scenario.env)
        (str_upper Scenario.env)
        (pool_keeps Scenario.env).

(** A run of [k] digits. *)
Fixpoint digits_run (k : nat) : string :=
  match k with
  | O => EmptyString
  | S k' => String "1" (digits_run k')
  end.

(** A world in which the version of a MySQL 8.0.31 is cached. *)
Definition w_cached : World :=
  set_server_version_info
    (Some [Version.VInt 8; Version.VInt 0; Version.VInt 31]) Scenario.w0.

(** A prepared statement that finds an empty row, and an iterator that
    yields one. *)
Definition fetchrow_empty (params : list pyval) : M pyval := ret (PyTuple []).

Definition fetch_nothing (params : list pyval) : M pyval := ret (PyList []).

Definition status_zero : M pyval := ret (PyInt 0).

Definition anext_empty : M pyval := ret (PyTuple []).

Definition fetch_two (n : Z) (timeout : option Z) : M (list pyval) :=
  ret [PyTuple [PyInt 1]; PyTuple [PyInt 2]].

Definition cursor_execute_ok (stmt : string) (params : pyval) : M unit := ret tt.

End Examples.

(** * Properties *)

Module VersionFacts.
Import Version VersionSpec.

Lemma parse_step_app (version : list comp) (n : string) :
  parse_step version n = (version ++ component n)%list.
Proof.
  unfold component, parse_step.
  destruct (py_int n); [reflexivity|].
  destruct (re_match_mariadb n); reflexivity.
Qed.

Lemma fold_parse_step (tokens : list string) (version : list comp) :
  fold_left parse_step tokens version = (version ++ List.concat (map component tokens))%list.
Proof.
  revert version. induction tokens as [|n tokens IH]; intros version; simpl.
  - by rewrite app_nil_r.
  - rewrite IH, parse_step_app, <- app_assoc. reflexivity.
Qed.

Lemma digit_not_special (c : ascii) :
  is_digit c = true ->
  int_space c = false /\ Ascii.eqb c "+" = false /\ Ascii.eqb c "-" = false
  /\ Ascii.eqb c "_" = false
  /\ digit_val c = Some (Z.of_nat (nat_of_ascii c) - 48).
Proof.
  destruct c as [[] [] [] [] [] [] [] []]; vm_compute; intros H;
    try discriminate H; repeat split.
Qed.

Lemma scan_all_digits (s : string) (acc : Z) :
  all_chars is_digit s = true ->
  scan_digits acc false s = Some (dec_from acc s, EmptyString).
Proof.
  revert acc. induction s as [|c s IH]; intros acc H; simpl in *.
  - reflexivity.
  - apply andb_prop in H as [Hc Hs].
    destruct (digit_not_special c Hc) as (_ & _ & _ & _ & Hd).
    rewrite Hd. apply IH, Hs.
Qed.

Lemma count_all_digits (s : string) :
  all_chars is_digit s = true -> count_digits s = String.length s.
Proof.
  induction s as [|c s IH]; intros H; simpl in *; [done|].
  apply andb_prop in H as [Hc Hs].
  destruct (digit_not_special c Hc) as (_ & _ & _ & _ & Hd).
  rewrite Hd. by rewrite IH.
Qed.

(** [int()] on a token of decimal digits: the number, unless the digits
    are more than the limit allows. *)
Lemma py_int_all_numeric (n : string) :
  all_numeric n = true ->
  py_int n = if (int_max_str_digits <? String.length n)%nat then None
             else Some (dec_value n).
Proof.
  unfold all_numeric. intros H. apply andb_prop in H as [Hne Hd].
  destruct n as [|c s]; [discriminate Hne|].
  pose proof Hd as Hd'. simpl in Hd'. apply andb_prop in Hd' as [Hc _].
  destruct (digit_not_special c Hc) as (Hsp & Hplus & Hminus & _ & Hv).
  unfold py_int. simpl skip_space. rewrite Hsp.
  unfold strip_sign. rewrite Hplus, Hminus, Hv.
  rewrite (scan_all_digits _ 0 Hd), (count_all_digits _ Hd).
  destruct (int_max_str_digits <? String.length (String c s))%nat; [done|].
  simpl. f_equal. unfold dec_value. simpl dec_from.
  destruct (dec_from _ s); reflexivity.
Qed.

Lemma all_chars_app (P : ascii -> bool) (a b : string) :
  all_chars P (a ++ b) = all_chars P a && all_chars P b.
Proof.
  induction a as [|c a IH]; simpl; [reflexivity|].
  by rewrite IH, andb_assoc.
Qed.

Lemma skip_space_chars (s : string) :
  all_chars int_char (skip_space s) = true -> all_chars int_char s = true.
Proof.
  induction s as [|c s IH]; simpl; [done|].
  destruct (int_space c) eqn:Hc; [|done].
  intros H. unfold int_char at 1. rewrite Hc. simpl. auto.
Qed.

Lemma skip_space_empty_chars (s : string) :
  skip_space s = EmptyString -> all_chars int_char s = true.
Proof.
  intros H. apply skip_space_chars. by rewrite H.
Qed.

Lemma strip_sign_chars (s s' : string) (sign : Z) :
  strip_sign s = (sign, s') ->
  all_chars int_char s' = true -> all_chars int_char s = true.
Proof.
  destruct s as [|c s]; simpl; [by intros [= _ <-]|].
  destruct (Ascii.eqb c "+") eqn:Hp; [intros [= _ <-] H|].
  { simpl. unfold int_char at 1. rewrite Hp, H.
    by rewrite !orb_true_r. }
  destruct (Ascii.eqb c "-") eqn:Hm; intros [= _ <-] H; [|done].
  simpl. unfold int_char at 1. rewrite Hm, H. by rewrite !orb_true_r.
Qed.

Lemma scan_digits_chars (s rest : string) (acc v : Z) (prev_us : bool) :
  scan_digits acc prev_us s = Some (v, rest) ->
  all_chars int_char rest = true -> all_chars int_char s = true.
Proof.
  revert acc prev_us. induction s as [|c s IH]; intros acc prev_us; simpl.
  - destruct prev_us; [done|]. by intros [= _ <-].
  - destruct (digit_val c) eqn:Hd.
    + intros H Hr. rewrite (IH _ _ H Hr).
      unfold int_char, is_digit. rewrite Hd. by rewrite !orb_true_r.
    + destruct (Ascii.eqb c "_") eqn:Hu.
      * destruct prev_us; [done|]. intros H Hr. rewrite (IH _ _ H Hr).
        unfold int_char. rewrite Hu. by rewrite !orb_true_r.
      * destruct prev_us; [done|]. by intros [= _ <-].
Qed.

(** [int()] accepts no string with a character outside white space,
    digits, the underscore and the signs. *)
Lemma py_int_chars (n : string) (z : Z) :
  py_int n = Some z -> all_chars int_char n = true.
Proof.
  unfold py_int. destruct (strip_sign (skip_space n)) as [sign s] eqn:Hs.
  destruct s as [|c s]; [done|].
  destruct (digit_val c); [|done].
  destruct (scan_digits 0 false (String c s)) as [[v rest]|] eqn:Hscan; [|done].
  destruct (int_max_str_digits <? count_digits (String c s))%nat; [done|].
  destruct (skip_space rest) eqn:Hrest; [|done]. intros _.
  apply skip_space_chars. eapply strip_sign_chars; [exact Hs|].
  eapply scan_digits_chars; [exact Hscan|].
  by apply skip_space_empty_chars.
Qed.

Lemma first_line_prefix (n : string) :
  exists rest, n = first_line n ++ rest.
Proof.
  induction n as [|c n [rest IH]]; simpl; [by exists EmptyString|].
  destruct (Ascii.eqb c (chr 10)); [by eexists|].
  exists rest. change (String c n = String c (first_line n ++ rest)).
  f_equal. exact IH.
Qed.

Lemma marker_not_int (n a b : string) :
  first_line n = a ++ "MariaDB" ++ b -> py_int n = None.
Proof.
  intros H. destruct (py_int n) as [z|] eqn:Hz; [|reflexivity].
  apply py_int_chars in Hz.
  destruct (first_line_prefix n) as [rest Hn].
  rewrite Hn, H, !all_chars_app in Hz.
  simpl in Hz. rewrite andb_false_r in Hz. discriminate Hz.
Qed.

Lemma str_prefix_drop (p s : string) :
  str_prefix p s = true -> s = p ++ str_drop (String.length p) s.
Proof.
  revert s. induction p as [|a p IH]; intros s; simpl; [done|].
  destruct s as [|b s]; [done|].
  intros H. apply andb_prop in H as [Hab Hp].
  apply Ascii.eqb_eq in Hab as ->.
  change (String b s = String b (p ++ str_drop (String.length p) s)).
  f_equal. by apply IH.
Qed.

Lemma str_prefix_app (p s : string) : str_prefix p (p ++ s) = true.
Proof.
  induction p as [|a p IH]; [done|].
  change (String a p ++ s) with (String a (p ++ s)).
  simpl. by rewrite Ascii.eqb_refl.
Qed.

(** The groups found spell the line. *)
Lemma match_line_sound (s g1 g3 : string) :
  match_line s = Some (g1, g3) -> s = g1 ++ "MariaDB" ++ g3.
Proof.
  revert g1. induction s as [|c s IH]; intros g1; [done|].
  cbn [match_line]. destruct (match_line s) as [[h1 h3]|].
  - intros [= <- <-].
    change (String c s = String c (h1 ++ "MariaDB" ++ h3)).
    f_equal. by apply IH.
  - destruct (str_prefix "MariaDB" (String c s)) eqn:Hp; [|done].
    intros [= <- <-]. by apply str_prefix_drop in Hp.
Qed.

(** A line that holds the marker is matched. *)
Lemma match_line_complete (a b : string) :
  match_line (a ++ "MariaDB" ++ b) <> None.
Proof.
  induction a as [|c a IH].
  - change (EmptyString ++ "MariaDB" ++ b) with (String "M" ("ariaDB" ++ b)).
    cbn [match_line]. destruct (match_line _) as [[h1 h3]|]; [done|].
    pose proof (str_prefix_app "MariaDB" b) as Hp.
    change ("MariaDB" ++ b) with (String "M" ("ariaDB" ++ b)) in Hp.
    by rewrite Hp.
  - change (String c a ++ "MariaDB" ++ b) with (String c (a ++ "MariaDB" ++ b)).
    cbn [match_line]. destruct (match_line _) as [[h1 h3]|]; [done|].
    by destruct IH.
Qed.

Lemma append_empty_r (s : string) : s ++ EmptyString = s.
Proof.
  induction s as [|c s IH]; [done|].
  change (String c (s ++ EmptyString) = String c s). by rewrite IH.
Qed.

Lemma append_assoc (a b c : string) : (a ++ b) ++ c = a ++ b ++ c.
Proof.
  induction a as [|x a IH]; [done|].
  change (String x ((a ++ b) ++ c) = String x (a ++ b ++ c)). by rewrite IH.
Qed.

Lemma marker_anywhere_not_int (a b : string) :
  py_int (a ++ "MariaDB" ++ b) = None.
Proof.
  destruct (py_int _) as [z|] eqn:Hz; [|reflexivity].
  apply py_int_chars in Hz. rewrite !all_chars_app in Hz.
  simpl in Hz. rewrite andb_false_r in Hz. discriminate Hz.
Qed.

(** What a token contributes once the pattern has matched. *)
Lemma component_matched (n g1 g3 : string) :
  py_int n = None ->
  match_line (first_line n) = Some (g1, g3) ->
  VStr "MariaDB" ∈ component n
  /\ forallb is_str (component n) = true
  /\ text_of (component n) = first_line n.
Proof.
  intros Hint Hm. unfold component, parse_step, re_match_mariadb.
  rewrite Hint, Hm. rewrite (match_line_sound _ _ _ Hm).
  destruct g1 as [|x g1], g3 as [|y g3]; cbn; repeat split;
    rewrite ?append_empty_r; try reflexivity; set_solver.
Qed.

Lemma component_marker_line (n a b : string) :
  first_line n = a ++ "MariaDB" ++ b ->
  VStr "MariaDB" ∈ component n
  /\ forallb is_str (component n) = true
  /\ text_of (component n) = first_line n.
Proof.
  intros H. pose proof (match_line_complete a b) as Hc. rewrite <- H in Hc.
  destruct (match_line (first_line n)) as [[g1 g3]|] eqn:Hm; [|done].
  eapply component_matched; [|exact Hm]. eapply marker_not_int, H.
Qed.

Lemma component_marker_anywhere (a b : string) :
  let n := a ++ "MariaDB" ++ b in
  forallb is_str (component n) = true
  /\ (VStr "MariaDB" ∈ component n \/ component n = [VStr n]).
Proof.
  intros n. pose proof (marker_anywhere_not_int a b) as Hint. fold n in Hint.
  destruct (match_line (first_line n)) as [[g1 g3]|] eqn:Hm.
  - destruct (component_matched n g1 g3 Hint Hm) as (Hin & Hstr & _). auto.
  - unfold component, parse_step, re_match_mariadb. rewrite Hint, Hm. auto.
Qed.

Lemma split_from_nonempty (cur val : string) : split_from cur val <> [].
Proof.
  revert cur. induction val as [|c val IH]; intros cur; simpl; [done|].
  destruct (is_sep c); [done|apply IH].
Qed.

Lemma split_from_join (cur val : string) :
  str_join EmptyString (split_from cur val) = cur ++ strip_seps val.
Proof.
  revert cur. induction val as [|c val IH]; intros cur; simpl.
  - by rewrite append_empty_r.
  - destruct (is_sep c).
    + pose proof (split_from_nonempty EmptyString val) as Hne.
      specialize (IH EmptyString).
      destruct (split_from EmptyString val) as [|t ts]; [done|].
      cbn [str_join] in *. by rewrite IH.
    + rewrite IH, append_assoc. reflexivity.
Qed.

Lemma split_from_no_sep (cur val : string) :
  all_chars no_sep cur = true ->
  Forall (fun n => all_chars no_sep n = true) (split_from cur val).
Proof.
  revert cur. induction val as [|c val IH]; intros cur Hcur; simpl.
  - by constructor.
  - destruct (is_sep c) eqn:Hc.
    + constructor; [done|]. by apply IH.
    + apply IH. rewrite all_chars_app, Hcur. simpl.
      unfold no_sep. by rewrite Hc.
Qed.

Lemma all_digits_no_marker (n : string) :
  all_chars is_digit n = true -> match_line (first_line n) = None.
Proof.
  intros Hd. destruct (match_line (first_line n)) as [[g1 g3]|] eqn:Hm; [|done].
  apply match_line_sound in Hm. destruct (first_line_prefix n) as [rest Hn].
  rewrite Hn, Hm, !all_chars_app in Hd. simpl in Hd.
  rewrite andb_false_r in Hd. discriminate Hd.
Qed.

(** A token of decimal digits contributes its number, or itself as text
    when it has more digits than the interpreter converts. *)
Lemma component_all_numeric (n : string) :
  all_numeric n = true ->
  component n = if (int_max_str_digits <? String.length n)%nat then [VStr n]
                else [VInt (dec_value n)].
Proof.
  intros Hnum. unfold component, parse_step, re_match_mariadb.
  rewrite (py_int_all_numeric n Hnum).
  destruct (int_max_str_digits <? String.length n)%nat; [|done].
  unfold all_numeric in Hnum. apply andb_prop in Hnum as [_ Hd].
  by rewrite (all_digits_no_marker n Hd).
Qed.

(** C3, as the code has it. [_parse_server_version] maps 8.0.31 to
    (8, 0, 31) and 5.5.5-10.3.7-MariaDB to (5, 5, 5, 10, 3, 7, 'MariaDB').
    For every input of code points up to 255 the tuple is the
    concatenation, in the order of the input, of what each token between
    dots and dashes contributes: a token of decimal digits contributes the
    integer it denotes when it has at most 4300 digits, the most [int()]
    converts by default, and is kept whole as a string otherwise; a token
    that holds the marker MariaDB contributes strings only, with the marker
    either a component of its own or, when the pattern cannot match, inside
    the token kept whole; and when the marker is on the first line of the
    token, the components spell that line in order. *)
Theorem parse_server_version_spec (val : string) :
  _parse_server_version "8.0.31" = [VInt 8; VInt 0; VInt 31]
  /\ _parse_server_version "5.5.5-10.3.7-MariaDB"
     = [VInt 5; VInt 5; VInt 5; VInt 10; VInt 3; VInt 7; VStr "MariaDB"]
  /\ _parse_server_version val = List.concat (map component (re_split val))
  /\ str_join EmptyString (re_split val) = strip_seps val
  /\ forall n : string, n ∈ re_split val ->
       all_chars no_sep n = true
       /\ (all_numeric n = true ->
           (String.length n <= int_max_str_digits)%nat ->
           component n = [VInt (dec_value n)])
       /\ (all_numeric n = true ->
           (int_max_str_digits < String.length n)%nat ->
           component n = [VStr n])
       /\ (forall a b : string, n = a ++ "MariaDB" ++ b ->
             forallb is_str (component n) = true
             /\ (VStr "MariaDB" ∈ component n \/ component n = [VStr n]))
       /\ (forall a b : string, first_line n = a ++ "MariaDB" ++ b ->
             VStr "MariaDB" ∈ component n
             /\ forallb is_str (component n) = true
             /\ text_of (component n) = first_line n).
Proof.
  split; [by vm_compute|]. split; [by vm_compute|].
  split; [apply (fold_parse_step (re_split val) [])|].
  split; [apply (split_from_join EmptyString val)|].
  intros n Hn. split; [|split; [|split; [|split]]].
  - pose proof (split_from_no_sep EmptyString val eq_refl) as Hall.
    rewrite Forall_forall in Hall. by apply Hall.
  - intros Hnum Hlen. rewrite (component_all_numeric n Hnum).
    destruct (Nat.ltb_spec int_max_str_digits (String.length n)); [lia|done].
  - intros Hnum Hlen. rewrite (component_all_numeric n Hnum).
    destruct (Nat.ltb_spec int_max_str_digits (String.length n)); [done|lia].
  - intros a b ->. apply component_marker_anywhere.
  - intros a b. apply component_marker_line.
Qed.

End VersionFacts.

Section PoolFacts.
Context (E : Env).

Lemma raw_pool_acquired_run (w : World) :
  raw_pool_acquired E (called w) =
    match out (pool_answer E w) with
    | Ok c => (Ok c, checkout c (answered E w))
    | Raise e => (Raise e, answered E w)
    end.
Proof. reflexivity. Qed.

Lemma raw_pool_acquired_elapsed (w : World) :
  now (snd (raw_pool_acquired E (called w))) - now (called w) = took (pool_answer E w).
Proof.
  rewrite raw_pool_acquired_run. unfold answered.
  destruct (out (pool_answer E w)); simpl; lia.
Qed.

Lemma pool_wait_unbounded (w : World) :
  (pending <- raw_pool_acquire E ;; pending) w = raw_pool_acquired E (called w).
Proof. reflexivity. Qed.

Lemma pool_wait_bounded (t : Z) (w : World) :
  (pending <- raw_pool_acquire E ;; wait_for pending t) w
  = wait_for (raw_pool_acquired E) t (called w).
Proof. reflexivity. Qed.

Lemma wait_for_in_time (w : World) (t : Z) :
  0 < t -> took (pool_answer E w) <= t ->
  wait_for (raw_pool_acquired E) t (called w) = raw_pool_acquired E (called w).
Proof.
  intros Hpos H. unfold wait_for. pose proof (raw_pool_acquired_elapsed w) as Hel.
  destruct (raw_pool_acquired E (called w)) as [r w']. cbn [snd] in Hel.
  rewrite Hel. destruct (Z.ltb_spec 0 t); [|lia].
  destruct (Z.leb_spec (took (pool_answer E w)) t); [done|lia].
Qed.

Lemma wait_for_too_late (w : World) (t : Z) :
  t < took (pool_answer E w) \/ t <= 0 ->
  wait_for (raw_pool_acquired E) t (called w)
  = (Raise TimeoutError, tick (Z.max 0 t) (called w)).
Proof.
  intros H. unfold wait_for. pose proof (raw_pool_acquired_elapsed w) as Hel.
  destruct (raw_pool_acquired E (called w)) as [r w']. cbn [snd] in Hel.
  rewrite Hel. destruct (Z.ltb_spec 0 t); [|done].
  destruct (Z.leb_spec (took (pool_answer E w)) t); [lia|done].
Qed.

Lemma bind_congr {A B : Type} (m1 m2 : M A) (k : A -> M B) (w : World) :
  m1 w = m2 w -> bind m1 k w = bind m2 k w.
Proof. unfold bind. by intros ->. Qed.

(** The first step of [acquire] when the raw pool answers in time. *)
Lemma acquire_wait_in_time (timeout : option Z) (w : World) :
  in_time E timeout w ->
  (match timeout with
   | None => pending <- raw_pool_acquire E ;; pending
   | Some t => pending <- raw_pool_acquire E ;; wait_for pending t
   end) w = raw_pool_acquired E (called w).
Proof.
  destruct timeout as [t|]; [|done]. intros [Hpos Ht].
  rewrite pool_wait_bounded. by apply wait_for_in_time.
Qed.

Lemma raw_pool_release_run (c : conn) (w : World) :
  raw_pool_release E c w
  = match out (unit_reply E w (EvPoolRelease c)) with
    | Ok _ => (Ok tt, released E c w)
    | Raise e => (Raise e, release_returned E c w)
    end.
Proof.
  unfold raw_pool_release, bind, call, modify, released, release_returned.
  destruct (out (unit_reply E w (EvPoolRelease c))); reflexivity.
Qed.

Lemma release_trace (c : conn) (w : World) :
  trace (snd (raw_pool_release E c w)) = (trace w ++ [EvPoolRelease c])%list.
Proof.
  rewrite raw_pool_release_run.
  destruct (out (unit_reply E w (EvPoolRelease c))); reflexivity.
Qed.

(** Where a connection is once the raw pool has taken it back. *)
Lemma released_pool (c : conn) (w : World) :
  (c ∉ pool_used (released E c w))
  /\ (pool_keeps E (release_returned E c w) c = true -> c ∈ pool_free (released E c w))
  /\ (pool_keeps E (release_returned E c w) c = false ->
      pool_free (released E c w) = pool_free w).
Proof.
  unfold released, checkin. simpl. split; [|split].
  - intros Hin. apply elem_of_difference in Hin as [_ Hin].
    apply Hin. by apply elem_of_singleton.
  - intros ->. apply elem_of_app. right. constructor.
  - by intros ->.
Qed.

(** [acquire] with a hook, once the raw pool has handed out [c] in time. *)
Lemma acquire_hook_run
    (init : conn -> M unit) (timeout : option Z) (w : World) (c : conn) :
  out (pool_answer E w) = Ok c ->
  in_time E timeout w ->
  acquire E (Some init) timeout w
  = match init c (checkout c (answered E w)) with
    | (Ok _, w2) => (Ok c, w2)
    | (Raise e, w2) =>
        match out (unit_reply E w2 (EvPoolRelease c)) with
        | Ok _ => (Raise e, released E c w2)
        | Raise e' => (Raise e', release_returned E c w2)
        end
    end.
Proof.
  intros Hc Ht. unfold acquire, bind at 1.
  rewrite (acquire_wait_in_time timeout w Ht), raw_pool_acquired_run, Hc.
  unfold bind at 1, try_except.
  destruct (init c (checkout c (answered E w))) as [[[]|e] w2]; [reflexivity|].
  unfold bind at 1, release. rewrite raw_pool_release_run.
  destruct (out (unit_reply E w2 (EvPoolRelease c))); reflexivity.
Qed.

(** C1, as the code has it. When the post-connect hook raises during
    [acquire], the release of the connection just acquired is awaited on
    the raw pool before anything reaches the caller, and it is the last call
    made; the caller never receives a connection. When the release returns,
    the error that reaches the caller is the hook's own and the connection
    is no longer among the used ones; it is among the idle ones again when
    the raw pool keeps it, which it does for an open connection outside a
    transaction while the pool is not closing. When the release raises, its
    error reaches the caller in place of the hook's. *)
Theorem acquire_hook_failure_releases
    (init : conn -> M unit) (timeout : option Z) (w w2 : World) (c : conn) (e : exn) :
  let run := acquire E (Some init) timeout w in
  let answer := unit_reply E w2 (EvPoolRelease c) in
  out (pool_answer E w) = Ok c ->
  in_time E timeout w ->
  init c (checkout c (answered E w)) = (Raise e, w2) ->
  trace (snd run) = (trace w2 ++ [EvPoolRelease c])%list
  /\ (forall c' : conn, fst run <> Ok c')
  /\ (out answer = Ok tt ->
      run = (Raise e, released E c w2)
      /\ (c ∉ pool_used (released E c w2))
      /\ (pool_keeps E (release_returned E c w2) c = true ->
          c ∈ pool_free (released E c w2)))
  /\ (forall e' : exn, out answer = Raise e' -> run = (Raise e', release_returned E c w2)).
Proof.
  intros run answer Hc Ht Hinit. unfold run.
  rewrite (acquire_hook_run init timeout w c Hc Ht), Hinit. fold answer.
  destruct (released_pool c w2) as (Hused & Hfree & _).
  destruct (out answer) as [[]|e0]; repeat split; try done.
  by intros e' [= <-].
Qed.

(** C8. With no timeout [acquire] calls the raw pool's acquire and awaits
    it with no timer, however long the raw pool takes: without a hook it
    returns the connection the pool produces, and an error it raises is the
    raw pool's, the hook's, or that of the release after a failed hook. A
    timeout of [t] changes this only when the raw pool needs more than [t],
    or when [t] allows no time at all; then the wait ends in [TimeoutError]
    after the call of the raw pool's acquire and nothing else. For a raw
    pool that takes time to answer this is exactly when the wait exceeds
    [t]. *)
Theorem acquire_timeout_only_when_exceeded (init : option (conn -> M unit)) (w : World) :
  let r := pool_answer E w in
  (forall c, out r = Ok c ->
     acquire E None None w = (Ok c, checkout c (answered E w)))
  /\ (forall e w', acquire E init None w = (Raise e, w') ->
        out r = Raise e
        \/ exists f c e0 w2,
             init = Some f /\ out r = Ok c
             /\ f c (checkout c (answered E w)) = (Raise e0, w2)
             /\ (e = e0 \/ out (unit_reply E w2 (EvPoolRelease c)) = Raise e))
  /\ (forall t, 0 < t -> took r <= t ->
        acquire E init (Some t) w = acquire E init None w)
  /\ (forall t, t < took r \/ t <= 0 ->
        acquire E init (Some t) w
        = (Raise TimeoutError, tick (Z.max 0 t) (called w))
        /\ trace (tick (Z.max 0 t) (called w)) = (trace w ++ [EvPoolAcquire])%list)
  /\ (0 < took r ->
      forall t, acquire E init (Some t) w
                = if t <? took r then (Raise TimeoutError, tick (Z.max 0 t) (called w))
                  else acquire E init None w).
Proof.
  intros r.
  assert (Hlate : forall t, t < took r \/ t <= 0 ->
             acquire E init (Some t) w
             = (Raise TimeoutError, tick (Z.max 0 t) (called w))).
  { intros t Ht. unfold acquire, bind at 1.
    rewrite pool_wait_bounded, wait_for_too_late; done. }
  assert (Hsame : forall t, 0 < t -> took r <= t ->
             acquire E init (Some t) w = acquire E init None w).
  { intros t Hpos Ht. unfold acquire. apply bind_congr.
    rewrite (acquire_wait_in_time (Some t) w), (acquire_wait_in_time None w); done. }
  split; [|split; [|split; [|split]]].
  - intros c Hc. unfold acquire, bind at 1.
    rewrite pool_wait_unbounded, raw_pool_acquired_run. fold r. by rewrite Hc.
  - intros e w'. destruct (out r) as [c|e0] eqn:Hr.
    + destruct init as [f|].
      * rewrite (acquire_hook_run f None w c Hr I).
        destruct (f c (checkout c (answered E w))) as [[[]|e0] w2] eqn:Hf; [done|].
        intros Hrun. right. exists f, c, e0, w2. repeat split; try done.
        destruct (out (unit_reply E w2 (EvPoolRelease c))) as [[]|e1];
          injection Hrun as <- _; auto.
      * unfold acquire, bind at 1.
        rewrite pool_wait_unbounded, raw_pool_acquired_run. fold r. by rewrite Hr.
    + unfold acquire, bind at 1.
      rewrite pool_wait_unbounded, raw_pool_acquired_run. fold r. rewrite Hr.
      intros [= <- _]. by left.
  - exact Hsame.
  - intros t Ht. split; [by apply Hlate|reflexivity].
  - intros Hpos t. destruct (Z.ltb_spec t (took r)) as [Hlt|Hge].
    + apply Hlate. by left.
    + apply Hsame; lia.
Qed.

End PoolFacts.

(** C1 as stated fails twice: a raw pool that drops the connection it
    takes back leaves it out of the idle ones, and a release that raises
    puts its error in the place of the hook's. *)
Lemma hook_failure_not_always_reidled :
  ~ hook_failure_reidles Examples.dropping_env Scenario.failing_hook None Scenario.w0
  /\ ~ hook_failure_reidles Examples.failing_release_env Scenario.failing_hook None
        Scenario.w0.
Proof.
  split; intros H.
  - destruct (H 7%nat (DriverError 1) _ eq_refl I eq_refl) as [_ Hin].
    vm_compute in Hin. destruct Hin as [Hin|[]]. discriminate Hin.
  - destruct (H 7%nat (DriverError 1) _ eq_refl I eq_refl) as [Herr _].
    vm_compute in Herr. discriminate Herr.
Qed.

(** C1 at work: a hook that fails on connection 7, with a pool that keeps
    the connection. *)
Lemma acquire_hook_failure_releases_witness :
  acquire Scenario.env (Some Scenario.failing_hook) (Some 5) Scenario.w0
  = (Raise (DriverError 1),
     released Scenario.env 7%nat
       (tick 4 (checkout 7%nat (answered Scenario.env Scenario.w0))))
  /\ (7%nat ∈ pool_free (released Scenario.env 7%nat
                          (tick 4 (checkout 7%nat (answered Scenario.env Scenario.w0))))).
Proof.
  destruct (acquire_hook_failure_releases Scenario.env Scenario.failing_hook (Some 5)
              Scenario.w0 _ 7%nat (DriverError 1) eq_refl
              ltac:(simpl; lia) eq_refl) as (_ & _ & H & _).
  destruct (H eq_refl) as (Hrun & _ & Hfree). split; [exact Hrun|].
  apply Hfree. reflexivity.
Defined.

(** C8 at work: a raw pool that needs 3 ticks, asked with 2 and with 5. *)
Lemma acquire_timeout_only_when_exceeded_witness :
  acquire Scenario.env None None Scenario.w0
  = (Ok 7%nat, checkout 7%nat (answered Scenario.env Scenario.w0))
  /\ acquire Scenario.env None (Some 5) Scenario.w0
     = acquire Scenario.env None None Scenario.w0
  /\ acquire Scenario.env None (Some 2) Scenario.w0
     = (Raise TimeoutError, tick (Z.max 0 2) (called Scenario.w0)).
Proof.
  destruct (acquire_timeout_only_when_exceeded Scenario.env None Scenario.w0)
    as (H1 & _ & H3 & H4 & _).
  split; [apply H1; reflexivity|].
  split; [apply H3; simpl; lia|apply H4; simpl; lia].
Defined.

Section CursorFacts.
Context (E : Env).

Lemma processed_app (a b : list event) :
  processed (a ++ b) = (processed a ++ processed b)%list.
Proof.
  induction a as [|ev a IH]; [done|].
  destruct ev; simpl; by rewrite ?IH.
Qed.

(** C10. [next] returns [None] whenever the row fetched is falsy, be it
    [None] or an empty row, and then [process_rows] is not called; a
    truthy row is handed to [process_rows] once, alone, and the first
    element of what comes back is returned. *)
Theorem next_falsy_row_is_none
    (ctx : Context) (timeout : timeout_arg) (w : World) (row : pyval) :
  let t := effective_timeout ctx timeout in
  let w1 := tick (took (value_reply E w (EvFetchrow t))) (log (EvFetchrow t) w) in
  out (value_reply E w (EvFetchrow t)) = Ok row ->
  py_truthy PyNone = false
  /\ py_truthy (PyTuple []) = false
  /\ (py_truthy row = false ->
        next E ctx timeout w = (Ok PyNone, w1)
        /\ processed (trace w1) = processed (trace w))
  /\ (py_truthy row = true ->
        let p := value_reply E w1 (EvProcessRows [row]) in
        let w2 := tick (took p) (log (EvProcessRows [row]) w1) in
        next E ctx timeout w
        = (match out p with Ok v => getitem0 v | Raise e => Raise e end, w2)
        /\ processed (trace w2) = (processed (trace w) ++ [[row]])%list).
Proof.
  intros t w1 Hrow. split; [done|]. split; [done|].
  assert (Hnext : forall k : pyval -> M pyval,
             bind (call (EvFetchrow t) (fun w => value_reply E w (EvFetchrow t))) k w
             = k row w1).
  { intros k. unfold bind, call. rewrite Hrow. reflexivity. }
  split; intros Htruth.
  - split.
    + unfold next. fold (effective_timeout ctx timeout). fold t.
      rewrite Hnext, Htruth. reflexivity.
    + unfold w1. simpl. rewrite processed_app. simpl. by rewrite app_nil_r.
  - intros p w2. split.
    + unfold next. fold (effective_timeout ctx timeout). fold t.
      rewrite Hnext, Htruth. simpl.
      unfold bind, process_rows, call, lift. fold p. fold w2.
      destruct (out p); reflexivity.
    + unfold w2, w1. simpl. rewrite !processed_app. simpl.
      by rewrite app_nil_r.
Qed.






End CursorFacts.

Section BudgetFacts.
Context (E : Env).
Variable dbapi_acquire : option Z -> M conn.

Lemma acquire_charged_ok (timeout : option Z) (w w1 : World) (c : conn) :
  dbapi_acquire timeout w = (Ok c, w1) ->
  acquire_charged dbapi_acquire timeout w
  = (Ok (c, remaining timeout (now w) (now w1)), w1).
Proof.
  intros H. destruct timeout as [t|]; unfold acquire_charged, bind, monotonic, ret.
  - by rewrite H.
  - by rewrite H.
Qed.

Lemma acquire_charged_raise (timeout : option Z) (w w1 : World) (e : exn) :
  dbapi_acquire timeout w = (Raise e, w1) ->
  acquire_charged dbapi_acquire timeout w = (Raise e, w1).
Proof.
  intros H. destruct timeout as [t|]; unfold acquire_charged, bind, monotonic, ret.
  - by rewrite H.
  - by rewrite H.
Qed.

(** C2, as the code has it. [prepare] gives the whole budget to the
    acquire, charges the time the acquire took to a bounded budget, and
    passes what is left, whatever its sign, as the timeout of the driver's
    prepare, which is the next call made; an unbounded budget stays
    unbounded. The outcome is the driver's: [prepare] raises nothing of
    its own. *)
Theorem prepare_passes_remaining_budget
    (ctx : Context) (clause : pyval) (w w1 : World) (c : conn) :
  dbapi_acquire (ctx_timeout ctx) w = (Ok c, w1) ->
  let ev := EvPrepare c (ctx_statement ctx) (remaining (ctx_timeout ctx) (now w) (now w1)) in
  let r := value_reply E w1 ev in
  let w2 := tick (took r) (log ev w1) in
  trace w2 = (trace w1 ++ [ev])%list
  /\ prepare E dbapi_acquire ctx clause w
     = match out r with
       | Raise e => (Raise e, w2)
       | Ok p =>
           let a := value_reply E w2 (EvGetAttributes p) in
           let w3 := tick (took a) (log (EvGetAttributes p) w2) in
           match out a with
           | Ok attrs =>
               (Ok (mkPreparedStatement p clause ctx), set_cursor_description attrs w3)
           | Raise TypeError =>
               (Ok (mkPreparedStatement p clause ctx), set_cursor_description (PyList []) w3)
           | Raise e => (Raise e, w3)
           end
       end.
Proof.
  intros Hacq ev r w2. split; [reflexivity|].
  unfold prepare, bind at 1. rewrite (acquire_charged_ok _ _ _ _ Hacq).
  unfold bind at 1, call at 1. fold ev. fold r. fold w2.
  destruct (out r) as [p|e]; [|reflexivity].
  unfold bind, try_except, call, modify, ret, raise.
  destruct (out (value_reply E w2 (EvGetAttributes p))) as [attrs|[]]; reflexivity.
Qed.

(** When the acquire fails, so do [prepare] and [async_execute], and
    nothing is prepared or queried. *)
Lemma prepare_acquire_failure (ctx : Context) (clause : pyval) (w w1 : World) (e : exn) :
  dbapi_acquire (ctx_timeout ctx) w = (Raise e, w1) ->
  prepare E dbapi_acquire ctx clause w = (Raise e, w1).
Proof.
  intros H. unfold prepare, bind at 1. by rewrite (acquire_charged_raise _ _ _ _ H).
Qed.

Lemma async_execute_acquire_failure
    (query : string) (timeout : option Z) (args : pyval) (w w1 : World) (e : exn) :
  dbapi_acquire timeout w = (Raise e, w1) ->
  async_execute E dbapi_acquire query timeout args w = (Raise e, w1).
Proof.
  intros H. unfold async_execute, bind at 1.
  by rewrite (acquire_charged_raise _ _ _ _ H).
Qed.

(** In [async_execute] the query goes out with no timeout at all: without
    arguments the call after the acquire is [conn.query(query)]. *)
Lemma async_execute_query_untimed
    (query : string) (timeout : option Z) (w w1 : World) (c : conn) :
  dbapi_acquire timeout w = (Ok c, w1) ->
  trace (snd (async_execute E dbapi_acquire query timeout PyNone w))
  = (trace w1 ++ [EvQuery c query])%list.
Proof.
  intros H. unfold async_execute, bind at 1.
  rewrite (acquire_charged_ok _ _ _ _ H).
  unfold bind, ret, call, modify.
  destruct (out (unit_reply E w1 (EvQuery c query))); reflexivity.
Qed.

End BudgetFacts.

(** C2 as stated fails: a pool whose hook takes 4 ticks after a wait of 3
    uses up a budget of 5; [prepare] still returns a statement, prepared by
    the driver with a timeout of -2. *)
Lemma prepare_spent_budget_not_fail_fast :
  ~ spent_budget_fails_fast Scenario.env
      (acquire Scenario.env (Some Scenario.slow_hook))
      (mkContext (Some 5) "SELECT 1") PyNone Scenario.w0.
Proof.
  intros H.
  destruct (H 5 7%nat _ eq_refl eq_refl) as [Hfail _].
  - vm_compute. discriminate.
  - vm_compute in Hfail. discriminate Hfail.
Qed.

(** The same run seen through the amended statement. *)
Lemma prepare_passes_remaining_budget_witness :
  trace (snd (prepare Scenario.env (acquire Scenario.env (Some Scenario.slow_hook))
                (mkContext (Some 5) "SELECT 1") PyNone Scenario.w0))
  = [EvPoolAcquire; EvPrepare 7%nat "SELECT 1" (Some (-2)); EvGetAttributes (PyInt 1)].
Proof.
  destruct (prepare_passes_remaining_budget Scenario.env
              (acquire Scenario.env (Some Scenario.slow_hook))
              (mkContext (Some 5) "SELECT 1") PyNone Scenario.w0 _ 7%nat eq_refl)
    as [_ ->].
  reflexivity.
Defined.

Section TransactionFacts.
Context (E : Env).

(** C6, as the code has it. [commit] and [rollback] look at no state: in
    every world, whatever was called before, they issue the driver's
    commit or rollback on the held connection and end as the driver
    does. *)
Theorem commit_rollback_unguarded (self : Transaction) (w : World) :
  let rc := unit_reply E w (EvCommit (_conn self)) in
  let rr := unit_reply E w (EvRollback (_conn self)) in
  commit E self w = (out rc, tick (took rc) (log (EvCommit (_conn self)) w))
  /\ trace (snd (commit E self w)) = (trace w ++ [EvCommit (_conn self)])%list
  /\ rollback E self w = (out rr, tick (took rr) (log (EvRollback (_conn self)) w))
  /\ trace (snd (rollback E self w)) = (trace w ++ [EvRollback (_conn self)])%list.
Proof. repeat split. Qed.

End TransactionFacts.

(** C6 as stated fails: on a transaction that was never begun, and again
    on one already committed, [commit] and [rollback] do not refuse; they
    reach the driver. *)
Lemma commit_outside_active_not_refused :
  let tx := mkTransaction 7%nat None in
  let committed := snd (commit Scenario.env tx (snd (begin Scenario.env tx Scenario.w0))) in
  ~ refuses (commit Scenario.env tx) Scenario.w0
  /\ ~ refuses (rollback Scenario.env tx) Scenario.w0
  /\ ~ refuses (commit Scenario.env tx) committed
  /\ ~ refuses (rollback Scenario.env tx) committed.
Proof.
  repeat split; intros [[e He] _]; vm_compute in He; discriminate He.
Qed.

Section LogFacts.

Lemma version_queries_app (a b : list event) :
  version_queries (a ++ b) = (version_queries a + version_queries b)%nat.
Proof. unfold version_queries. by rewrite List.filter_app, length_app. Qed.

Lemma emits_weaken {A} (n n' : nat) (m : M A) :
  (n <= n')%nat -> emits n m -> emits n' m.
Proof.
  intros Hn Hm w. destruct (Hm w) as (Hv & d & Ht & Hq).
  split; [done|]. exists d. split; [done|lia].
Qed.

Lemma emits_pure {A} (f : World -> Res A) : emits 0 (fun w => (f w, w)).
Proof.
  intros w. split; [done|]. exists []. simpl. by rewrite app_nil_r.
Qed.

Lemma emits_ret {A} (a : A) : emits 0 (ret a).
Proof. apply (emits_pure (fun _ => Ok a)). Qed.

Lemma emits_raise {A} (e : exn) : emits 0 (raise (A:=A) e).
Proof. apply (emits_pure (fun _ => Raise e)). Qed.

Lemma emits_lift {A} (r : Res A) : emits 0 (lift r).
Proof. apply (emits_pure (fun _ => r)). Qed.

Lemma emits_call {A} (ev : event) (answer : World -> reply A) :
  emits (if is_version_query ev then 1 else 0) (call ev answer).
Proof.
  intros w. split; [done|]. exists [ev]. split; [done|].
  unfold version_queries. simpl. destruct (is_version_query ev); simpl; lia.
Qed.

Lemma emits_bind {A B} (n n' : nat) (m : M A) (k : A -> M B) :
  emits n m -> (forall a, emits n' (k a)) -> emits (n + n') (bind m k).
Proof.
  intros Hm Hk w. unfold bind. destruct (Hm w) as (Hv & d & Ht & Hq).
  destruct (m w) as [[a|e] w1]; simpl in *.
  - destruct (Hk a w1) as (Hv' & d' & Ht' & Hq'). split; [congruence|].
    exists (d ++ d')%list. rewrite Ht', Ht, <- app_assoc, version_queries_app.
    split; [done|lia].
  - split; [done|]. exists d. split; [done|lia].
Qed.

Lemma emits_bind0 {A B} (m : M A) (k : A -> M B) :
  emits 0 m -> (forall a, emits 0 (k a)) -> emits 0 (bind m k).
Proof. apply (emits_bind 0 0). Qed.

End LogFacts.

Section DialectFacts.
Context (E : Env) (self : Dialect).

Lemma cursor_emits (c : conn) : emits 0 (cursor E c).
Proof. apply (emits_call (EvCursor c)). Qed.

Lemma close_emits (c : conn) : emits 0 (close E c).
Proof. apply (emits_call (EvCursorClose c)). Qed.

Lemma fetchone_emits (c : conn) : emits 0 (fetchone E c).
Proof. apply (emits_call (EvFetchone c)). Qed.

Lemma execute_emits (c : conn) (sql : string) :
  String.eqb sql "SELECT VERSION()" = false -> emits 0 (execute E c sql).
Proof.
  intros H. pose proof (emits_call (EvExecute c sql)
                          (fun w => unit_reply E w (EvExecute c sql))) as Hc.
  simpl in Hc. by rewrite H in Hc.
Qed.

Lemma as_text_emits (val : pyval) (otherwise : exn) :
  emits 0 (as_text E val otherwise).
Proof.
  destruct val; first [apply emits_raise | apply emits_ret | apply emits_lift].
Qed.

Lemma set_isolation_level_emits (c : conn) (level : string) :
  emits 0 (set_isolation_level E self c level).
Proof.
  unfold set_isolation_level, _set_isolation_level.
  destruct (negb _); [apply emits_raise|].
  repeat (apply emits_bind0; [|intros _]);
    first [apply cursor_emits | apply close_emits | by apply execute_emits].
Qed.

(** C4. [set_isolation_level] replaces the underscores of the level name
    by spaces and looks the result up in the recognized set; a name not
    found there raises [ArgumentError] with a message that holds the
    normalized name and the recognized names, and the world is left as it
    was: no cursor is opened and no statement is sent. A name found there
    leads to the SET command for the normalized name. *)
Theorem set_isolation_level_rejects_unknown
    (connection : conn) (level : string) (w : World) :
  let normalized := str_replace "_" " " level in
  (normalized ∉ _isolation_lookup self ->
     set_isolation_level E self connection level w
     = (Raise (ArgumentError (invalid_level_message self normalized)), w)
     /\ exists pre mid : string,
         invalid_level_message self normalized
         = pre ++ normalized ++ mid
             ++ str_join ", " (elements (_isolation_lookup self)))
  /\ (normalized ∈ _isolation_lookup self ->
       set_isolation_level E self connection level w
       = (cursor E connection ;;;
          execute E connection ("SET SESSION TRANSACTION ISOLATION LEVEL " ++ normalized) ;;;
          execute E connection "COMMIT" ;;;
          close E connection) w).
Proof.
  intros normalized. unfold set_isolation_level, _set_isolation_level.
  fold normalized. split; intros H.
  - rewrite bool_decide_eq_false_2 by done. split; [reflexivity|].
    exists "Invalid value '",
      ("' for isolation_level. " ++ "Valid isolation levels for "
         ++ name self ++ " are ").
    unfold invalid_level_message.
    by rewrite !VersionFacts.append_assoc.
  - by rewrite bool_decide_eq_true_2.
Qed.

Lemma get_server_version_info_emits (c : conn) :
  emits 1 (_get_server_version_info E c).
Proof.
  unfold _get_server_version_info.
  apply (emits_bind 0 1); [apply cursor_emits|intros _].
  apply (emits_bind 1 0); [apply (emits_call (EvExecute c "SELECT VERSION()"))|intros _].
  repeat (apply emits_bind0; [|intros ?]);
    first [apply fetchone_emits | apply close_emits | apply emits_lift
          | apply as_text_emits | apply emits_ret].
Qed.

(** [get_isolation_level] is the resolution of the version, when none is
    cached, followed by a part that never asks for the version. *)
Lemma get_isolation_level_split (c : conn) :
  exists rest : M string,
    emits 0 rest
    /\ forall w, get_isolation_level E self c w
                = bind (match server_version_info w with
                        | None =>
                            v <- _get_server_version_info E c ;;
                            modify (set_server_version_info (Some v))
                        | Some _ => ret tt
                        end) (fun _ => rest) w.
Proof.
  eexists. split; cycle 1.
  - intros w. unfold get_isolation_level. unfold bind at 1. cbv beta iota.
    reflexivity.
  - cbv beta. apply emits_bind0; [apply cursor_emits|intros _].
    apply emits_bind0; [apply (emits_pure (fun w => Ok (server_version_info w)))|intros info].
    apply emits_bind0.
    { destruct (_is_mysql self info); [|apply emits_ret].
      destruct info; [apply emits_lift|apply emits_raise]. }
    intros recent. apply emits_bind0.
    { destruct recent; by apply execute_emits. }
    intros _. apply emits_bind0; [apply fetchone_emits|intros row].
    assert (Hrow : emits 0 (val <- lift (getitem0 row) ;;
                            close E c ;;;
                            val <- as_text E val AttributeError ;;
                            ret (str_replace "-" " " (str_upper E val)))).
    { repeat (apply emits_bind0; [|intros ?]);
        first [apply close_emits | apply emits_lift | apply as_text_emits
              | apply emits_ret]. }
    destruct row; first [apply emits_raise | exact Hrow].
Qed.

(** One call: the log only grows; with a cached version it gains no
    version query and the cache stays; without one it gains at most one,
    and a call that returns has filled the cache. *)
Lemma get_isolation_level_step (c : conn) (w : World) :
  exists d : list event,
    trace (snd (get_isolation_level E self c w)) = (trace w ++ d)%list
    /\ (server_version_info w <> None ->
        server_version_info (snd (get_isolation_level E self c w)) = server_version_info w
        /\ version_queries d = 0%nat)
    /\ (server_version_info w = None ->
        (version_queries d <= 1)%nat
        /\ ((exists s, fst (get_isolation_level E self c w) = Ok s) ->
            server_version_info (snd (get_isolation_level E self c w)) <> None)).
Proof.
  destruct (get_isolation_level_split c) as (rest & Hrest & Heq).
  rewrite Heq. destruct (server_version_info w) as [v|] eqn:Hsvi.
  - unfold bind, ret. destruct (Hrest w) as (Hv & d & Ht & Hq).
    exists d. split; [done|]. split; [|done]. intros _.
    split; [congruence|lia].
  - assert (Hrun : ((v <- _get_server_version_info E c ;;
                     modify (set_server_version_info (Some v))) ;;; rest) w
                   = match _get_server_version_info E c w with
                     | (Ok v, w1) => rest (set_server_version_info (Some v) w1)
                     | (Raise e, w1) => (Raise e, w1)
                     end).
    { unfold bind, modify.
      destruct (_get_server_version_info E c w) as [[v|e] w1]; reflexivity. }
    rewrite Hrun.
    destruct (get_server_version_info_emits c w) as (Hv & d & Ht & Hq).
    destruct (_get_server_version_info E c w) as [[v|e] w1]; simpl in *.
    + destruct (Hrest (set_server_version_info (Some v) w1)) as (Hv' & d' & Ht' & Hq').
      exists (d ++ d')%list. rewrite Ht'. simpl. rewrite Ht, <- app_assoc.
      split; [done|]. split; [done|]. intros _.
      rewrite version_queries_app. split; [lia|]. intros _.
      rewrite Hv'. done.
    + exists d. split; [done|]. split; [done|]. intros _. split; [done|].
      by intros [s Hs].
Qed.

Lemma get_isolation_levels_cached (cs : list conn) (w : World) :
  server_version_info w <> None ->
  server_version_info (get_isolation_levels E self cs w) = server_version_info w
  /\ version_queries (trace (get_isolation_levels E self cs w))
     = version_queries (trace w).
Proof.
  revert w. induction cs as [|c cs IH]; intros w Hw; simpl; [done|].
  destruct (get_isolation_level_step c w) as (d & Ht & Hcached & _).
  destruct (Hcached Hw) as [Hv Hq].
  destruct (IH (snd (get_isolation_level E self c w))) as [IHv IHq].
  { by rewrite Hv. }
  rewrite IHv, IHq, Hv, Ht, version_queries_app, Hq. split; [done|lia].
Qed.

(** C7. Once the version is cached, calls of [get_isolation_level], on
    the same connection or on any other and however they end, keep the
    cache and send no version query. A first call that returns has filled
    the cache with one query at most, so a run of calls that starts with
    it asks for the version at most once. *)
Theorem server_version_queried_at_most_once (c : conn) (cs : list conn) (w : World) :
  (server_version_info w <> None ->
     server_version_info (get_isolation_levels E self (c :: cs) w) = server_version_info w
     /\ version_queries (trace (get_isolation_levels E self (c :: cs) w))
        = version_queries (trace w))
  /\ ((exists s, fst (get_isolation_level E self c w) = Ok s) ->
      server_version_info (get_isolation_levels E self (c :: cs) w) <> None
      /\ (version_queries (trace (get_isolation_levels E self (c :: cs) w))
          <= version_queries (trace w) + 1)%nat).
Proof.
  split; [apply get_isolation_levels_cached|].
  intros Hok. simpl.
  destruct (get_isolation_level_step c w) as (d & Ht & Hcached & Hempty).
  destruct (server_version_info w) as [v|] eqn:Hsvi.
  - destruct Hcached as [Hv Hq]; [done|].
    destruct (get_isolation_levels_cached cs (snd (get_isolation_level E self c w)))
      as [IHv IHq]; [by rewrite Hv|].
    rewrite IHv, IHq, Hv, Ht, version_queries_app, Hq. split; [done|lia].
  - destruct Hempty as [Hq Hfilled]; [done|]. specialize (Hfilled Hok).
    destruct (get_isolation_levels_cached cs (snd (get_isolation_level E self c w)) Hfilled)
      as [IHv IHq].
    rewrite IHv, IHq, Ht, version_queries_app. split; [done|lia].
Qed.

End DialectFacts.

Section IsolationInTransaction.
Context (E : Env).

(** C5. [begin] issues the driver's begin on the held connection first;
    a bound isolation setter runs next, in the world that begin left,
    before [begin] returns and so before any statement of the caller; when
    begin fails the setter does not run. Without a setter [begin] issues
    the begin command and nothing else. For a transaction the dialect
    makes with an [isolation] keyword the setter is [set_isolation_level]
    with that level, and all it sends comes after the begin command. *)
Theorem begin_then_isolation
    (c : conn) (set_isolation : conn -> M unit) (w : World) :
  let r := unit_reply E w (EvBegin c) in
  let w1 := tick (took r) (log (EvBegin c) w) in
  trace w1 = (trace w ++ [EvBegin c])%list
  /\ begin E (mkTransaction c (Some set_isolation)) w
     = match out r with
       | Ok _ => set_isolation c w1
       | Raise e => (Raise e, w1)
       end
  /\ begin E (mkTransaction c None) w = (out r, w1)
  /\ forall (self : Dialect) (kwargs : gmap string string),
       transaction E self c kwargs
       = mkTransaction c
           (match kwargs !! "isolation" with
            | Some level => Some (fun c' => set_isolation_level E self c' level)
            | None => None
            end)
       /\ exists d : list event,
           trace (snd (begin E (transaction E self c kwargs) w))
           = (trace w ++ EvBegin c :: d)%list.
Proof.
  intros r w1. split; [reflexivity|].
  assert (Hsome : forall f : conn -> M unit,
             begin E (mkTransaction c (Some f)) w
             = match out r with
               | Ok _ => f c w1
               | Raise e => (Raise e, w1)
               end).
  { intros f. unfold begin, bind, call. simpl. fold r. fold w1.
    destruct (out r); reflexivity. }
  assert (Hnone : begin E (mkTransaction c None) w = (out r, w1)).
  { unfold begin, bind, call, ret. simpl. fold r. fold w1.
    destruct (out r) as [[]|]; reflexivity. }
  split; [apply Hsome|]. split; [apply Hnone|].
  intros self kwargs. split; [reflexivity|].
  unfold transaction. destruct (kwargs !! "isolation") as [level|].
  - rewrite Hsome. destruct (out r).
    + destruct (set_isolation_level_emits E self c level w1) as (_ & d & Ht & _).
      exists d. rewrite Ht. simpl. by rewrite <- app_assoc.
    + exists []. reflexivity.
  - rewrite Hnone. exists []. reflexivity.
Qed.

End IsolationInTransaction.

(** C5 at work: the calls of a transaction begun at READ COMMITTED. *)
Lemma begin_with_isolation_example :
  trace (snd (begin Scenario.env
                (transaction Scenario.env Scenario.mysql 7%nat
                   {["isolation" := "READ_COMMITTED"]})
                Scenario.w0))
  = [EvBegin 7%nat; EvCursor 7%nat;
     EvExecute 7%nat "SET SESSION TRANSACTION ISOLATION LEVEL READ COMMITTED";
     EvExecute 7%nat "COMMIT"; EvCursorClose 7%nat].
Proof. by vm_compute. Qed.

(** C3 as stated fails: a token of 4301 digits is more than [int()]
    converts, and stays a string. *)
Lemma long_numeric_token_not_integer :
  ~ numeric_tokens_are_integers (Examples.digits_run 4301).
Proof.
  intros H. specialize (H (Examples.digits_run 4301)).
  rewrite (VersionFacts.component_all_numeric (Examples.digits_run 4301)) in H
    by (by vm_compute).
  replace (Version.int_max_str_digits <? String.length (Examples.digits_run 4301))%nat
    with true in H by (by vm_compute).
  assert (Hin : Examples.digits_run 4301 ∈ Version.re_split (Examples.digits_run 4301)).
  { replace (Version.re_split (Examples.digits_run 4301))
      with [Examples.digits_run 4301] by (by vm_compute).
    apply list_elem_of_here. }
  specialize (H Hin ltac:(by vm_compute)). discriminate H.
Qed.

(** C3 at work on the tokens of a MariaDB version. *)
Lemma parse_server_version_spec_witness :
  VersionSpec.component "10" = [Version.VInt 10]
  /\ Version.VStr "MariaDB" ∈ VersionSpec.component "MariaDB".
Proof.
  destruct (VersionFacts.parse_server_version_spec "5.5.5-10.3.7-MariaDB")
    as (_ & _ & _ & _ & H).
  split.
  - destruct (H "10") as (_ & Hnum & _).
    + vm_compute. do 3 apply list_elem_of_further. apply list_elem_of_here.
    + apply Hnum; [reflexivity|]. vm_compute. lia.
  - destruct (H "MariaDB") as (_ & _ & _ & _ & Hline).
    + vm_compute. do 6 apply list_elem_of_further. apply list_elem_of_here.
    + destruct (Hline EmptyString EmptyString) as [Hin _]; [reflexivity|exact Hin].
Defined.

(** C4 at work: a misspelt level and a recognized one. *)
Lemma set_isolation_level_rejects_unknown_witness :
  set_isolation_level Scenario.env Scenario.mysql 7%nat "READ_COMITTED" Scenario.w0
  = (Raise (ArgumentError (invalid_level_message Scenario.mysql "READ COMITTED")),
     Scenario.w0)
  /\ trace (snd (set_isolation_level Scenario.env Scenario.mysql 7%nat
                   "READ_COMMITTED" Scenario.w0))
     = [EvCursor 7%nat;
        EvExecute 7%nat "SET SESSION TRANSACTION ISOLATION LEVEL READ COMMITTED";
        EvExecute 7%nat "COMMIT"; EvCursorClose 7%nat].
Proof.
  split.
  - destruct (set_isolation_level_rejects_unknown Scenario.env Scenario.mysql
                7%nat "READ_COMITTED" Scenario.w0) as [H _].
    apply H. apply (bool_decide_unpack _). by vm_compute.
  - destruct (set_isolation_level_rejects_unknown Scenario.env Scenario.mysql
                7%nat "READ_COMMITTED" Scenario.w0) as [_ H].
    rewrite H; [reflexivity|]. apply (bool_decide_unpack _). by vm_compute.
Defined.

(** C7 at work: three calls on two connections against a MySQL 8.0.31. *)
Lemma server_version_queried_at_most_once_witness :
  server_version_info
    (get_isolation_levels Scenario.env Scenario.mysql [7%nat; 7%nat; 8%nat] Scenario.w0)
  <> None
  /\ (version_queries
        (trace (get_isolation_levels Scenario.env Scenario.mysql
                  [7%nat; 7%nat; 8%nat] Scenario.w0))
      <= version_queries (trace Scenario.w0) + 1)%nat.
Proof.
  destruct (server_version_queried_at_most_once Scenario.env Scenario.mysql
              7%nat [7%nat; 8%nat] Scenario.w0) as [_ H].
  apply H. exists "REPEATABLE READ". by vm_compute.
Defined.


(** C10 at work: an empty row, and a row of two columns. *)
Lemma next_falsy_row_is_none_witness :
  fst (next Scenario.env (mkContext None "SELECT 1") DEFAULT Scenario.w0) = Ok PyNone
  /\ fst (next Scenario.env (mkContext None "SELECT 1") (Given (Some 2)) Scenario.w0)
     = Ok (PyTuple [PyInt 1; PyStr "a"]).
Proof.
  split.
  - destruct (next_falsy_row_is_none Scenario.env (mkContext None "SELECT 1")
                DEFAULT Scenario.w0 (PyTuple []) eq_refl) as (_ & _ & H & _).
    destruct (H eq_refl) as [-> _]. reflexivity.
  - destruct (next_falsy_row_is_none Scenario.env (mkContext None "SELECT 1")
                (Given (Some 2)) Scenario.w0 (PyTuple [PyInt 1; PyStr "a"]) eq_refl)
      as (_ & _ & _ & H).
    destruct (H eq_refl) as [-> _]. reflexivity.
Defined.


Module VersionMore.
Import Version VersionSpec VersionFacts.

Lemma component_size (n : string) :
  (1 <= List.length (component n) <= 3)%nat.
Proof.
  unfold component, parse_step, re_match_mariadb.
  destruct (py_int n); [simpl; lia|].
  destruct (match_line (first_line n)) as [[g1 g3]|]; [|simpl; lia].
  destruct g1, g3; simpl; lia.
Qed.

Lemma concat_components_size (tokens : list string) :
  (List.length tokens <= List.length (List.concat (map component tokens))
   <= 3 * List.length tokens)%nat.
Proof.
  induction tokens as [|n tokens IH]; simpl; [lia|].
  rewrite length_app. pose proof (component_size n). lia.
Qed.

Lemma split_from_size (cur val : string) :
  List.length (split_from cur val) = S (count_seps val).
Proof.
  revert cur. induction val as [|c val IH]; intros cur; simpl; [done|].
  destruct (is_sep c); simpl; by rewrite IH.
Qed.

Lemma parse_server_version_nonempty (val : string) :
  _parse_server_version val <> [].
Proof.
  pose proof (concat_components_size (re_split val)) as Hsize.
  pose proof (split_from_size EmptyString val) as Hsplit.
  fold (re_split val) in Hsplit.
  unfold _parse_server_version. rewrite (fold_parse_step (re_split val) []).
  simpl. intros Hnil. rewrite Hnil, Hsplit in Hsize. simpl in Hsize. lia.
Qed.

(** X1. The version tuple is never empty: the input splits into one token
    more than it has dots and dashes, and every token, an empty one
    included, contributes at least one component and at most three. *)
Theorem parse_server_version_size (val : string) :
  _parse_server_version val <> []
  /\ List.length (re_split val) = S (count_seps val)
  /\ (S (count_seps val) <= List.length (_parse_server_version val)
      <= 3 * S (count_seps val))%nat.
Proof.
  pose proof (concat_components_size (re_split val)) as Hsize.
  pose proof (split_from_size EmptyString val) as Hsplit.
  fold (re_split val) in Hsplit.
  unfold _parse_server_version. rewrite (fold_parse_step (re_split val) []).
  simpl. rewrite Hsplit in Hsize. split; [|split; [done|lia]].
  intros Hnil. rewrite Hnil in Hsize. simpl in Hsize. lia.
Qed.

(** X2. A token becomes an integer only when it is made of white space,
    digits, underscores and signs: a token with any other character
    contributes strings only, and when the pattern does not match it either
    the token is kept whole as one string. *)
Theorem non_integer_token_stays_text (n : string) :
  all_chars int_char n = false ->
  py_int n = None
  /\ forallb is_str (component n) = true
  /\ (match_line (first_line n) = None -> component n = [VStr n]).
Proof.
  intros Hchars.
  assert (Hint : py_int n = None).
  { destruct (py_int n) as [z|] eqn:Hz; [|done].
    apply py_int_chars in Hz. congruence. }
  split; [done|].
  destruct (match_line (first_line n)) as [[g1 g3]|] eqn:Hm.
  - destruct (component_matched n g1 g3 Hint Hm) as (_ & Hstr & _).
    split; [done|]. intros [=].
  - unfold component, parse_step, re_match_mariadb. rewrite Hint, Hm.
    split; [done|]. done.
Qed.

Lemma match_line_suffix (a b : string) :
  match_line (a ++ b) = None -> match_line b = None.
Proof.
  induction a as [|c a IH]; [done|].
  change (String c a ++ b) with (String c (a ++ b)). cbn [match_line].
  destruct (match_line (a ++ b)) as [[h1 h3]|]; [done|]. intros _. by apply IH.
Qed.

Lemma match_line_last (s g1 g3 : string) :
  match_line s = Some (g1, g3) -> match_line g3 = None.
Proof.
  revert g1. induction s as [|c s IH]; intros g1; [done|].
  cbn [match_line]. destruct (match_line s) as [[h1 h3]|] eqn:Hs.
  - intros [= _ <-]. by eapply IH.
  - destruct (str_prefix "MariaDB" (String c s)) eqn:Hp; [|done].
    intros [= _ <-]. apply str_prefix_drop in Hp.
    change (String.length "MariaDB") with 7%nat in Hp.
    injection Hp as _ Hs'. rewrite Hs' in Hs.
    by apply (match_line_suffix "ariaDB").
Qed.

(** X3. When the pattern matches a token, the groups spell the first line
    of the token around the marker, and the marker split out is the last
    one on that line: the third group holds no marker. *)
Theorem re_match_mariadb_splits_at_last_marker (n : string) (groups : list string) :
  re_match_mariadb n = Some groups ->
  exists g1 g3 : string,
    groups = [g1; "MariaDB"; g3]
    /\ first_line n = g1 ++ "MariaDB" ++ g3
    /\ ~ holds_marker g3.
Proof.
  unfold re_match_mariadb.
  destruct (match_line (first_line n)) as [[g1 g3]|] eqn:Hm; [|done].
  intros [= <-]. exists g1, g3. split; [done|]. split.
  - by apply match_line_sound.
  - intros (a & b & Hg3). apply match_line_last in Hm.
    rewrite Hg3 in Hm. by apply (match_line_complete a b).
Qed.

End VersionMore.

(** X2 at work on a token with a letter. *)
Lemma non_integer_token_stays_text_witness :
  VersionSpec.component "31a" = [Version.VStr "31a"].
Proof.
  destruct (VersionMore.non_integer_token_stays_text "31a" eq_refl) as (_ & _ & H).
  apply H. reflexivity.
Defined.

(** X3 at work on a token that holds the marker twice. *)
Lemma re_match_mariadb_splits_at_last_marker_witness :
  exists g1 g3 : string,
    [ "1MariaDB2"; "MariaDB"; "3" ] = [g1; "MariaDB"; g3]
    /\ Version.first_line "1MariaDB2MariaDB3" = g1 ++ "MariaDB" ++ g3
    /\ ~ holds_marker g3.
Proof.
  apply (VersionMore.re_match_mariadb_splits_at_last_marker "1MariaDB2MariaDB3").
  reflexivity.
Defined.

Section CallSequences.
Context (E : Env).

Lemma call_unit_then_ret (ev : event) (w : World) :
  (call ev (fun w => unit_reply E w ev) ;;; ret tt) w
  = call ev (fun w => unit_reply E w ev) w.
Proof.
  unfold bind, call, ret. destruct (out (unit_reply E w ev)) as [[]|]; reflexivity.
Qed.

(** A run of calls ends in the world after all of them, or in the world
    after the first that raised: nothing is called after a failure. *)
Lemma run_calls_trace (evs : list event) (w : World) :
  match fst (run_calls E evs w) with
  | Ok _ => trace (snd (run_calls E evs w)) = (trace w ++ evs)%list
  | Raise _ =>
      exists made rest : list event,
        made <> [] /\ evs = (made ++ rest)%list
        /\ trace (snd (run_calls E evs w)) = (trace w ++ made)%list
  end.
Proof.
  revert w. induction evs as [|ev evs IH]; intros w; simpl.
  - by rewrite app_nil_r.
  - unfold bind, call.
    destruct (out (unit_reply E w ev)) as [[]|e]; cbv beta iota.
    + specialize (IH (tick (took (unit_reply E w ev)) (log ev w))).
      destruct (run_calls E evs _) as [[[]|e] w']; simpl in *.
      * rewrite IH. by rewrite <- app_assoc.
      * destruct IH as (made & rest & Hne & -> & Ht).
        exists (ev :: made), rest. split; [done|]. split; [done|].
        rewrite Ht. by rewrite <- app_assoc.
    + exists [ev], evs. done.
Qed.

Context (self : Dialect).

Lemma set_isolation_level_run (c : conn) (level : string) (w : World) :
  str_replace "_" " " level ∈ _isolation_lookup self ->
  set_isolation_level E self c level w
  = run_calls E (isolation_calls c (str_replace "_" " " level)) w.
Proof.
  intros H. unfold set_isolation_level, _set_isolation_level.
  rewrite bool_decide_eq_true_2 by done. simpl.
  unfold cursor, execute, close, bind at 1 2 3 4 5 6.
  destruct (call (EvCursor c) _ w) as [[[]|e] w1]; [|done].
  destruct (call (EvExecute c _) _ w1) as [[[]|e] w2]; [|done].
  destruct (call (EvExecute c "COMMIT") _ w2) as [[[]|e] w3]; [|done].
  by rewrite call_unit_then_ret.
Qed.

(** X4. For a recognized level [set_isolation_level] opens a cursor, sends
    the SET command with the normalized name, sends COMMIT and closes the
    cursor, in this order and nothing else; a call that raises ends the
    run, so the cursor is closed only when both statements went through. *)
Theorem set_isolation_level_stops_at_failure (c : conn) (level : string) (w : World) :
  let normalized := str_replace "_" " " level in
  let plan := isolation_calls c normalized in
  let run := set_isolation_level E self c level w in
  normalized ∈ _isolation_lookup self ->
  match fst run with
  | Ok _ => trace (snd run) = (trace w ++ plan)%list
  | Raise _ =>
      exists made rest : list event,
        made <> [] /\ plan = (made ++ rest)%list
        /\ trace (snd run) = (trace w ++ made)%list
        /\ (EvCursorClose c ∈ made -> rest = [])
  end.
Proof.
  intros normalized plan run H. unfold run.
  rewrite (set_isolation_level_run c level w H). fold normalized. fold plan.
  pose proof (run_calls_trace plan w) as Hrun.
  destruct (fst (run_calls E plan w)); [done|].
  destruct Hrun as (made & rest & Hne & Hplan & Ht).
  exists made, rest. repeat split; try done.
  intros Hin. unfold plan, isolation_calls in Hplan.
  destruct made as [|e1 [|e2 [|e3 [|e4 made]]]]; simpl in Hplan.
  - done.
  - injection Hplan as <- _. apply list_elem_of_singleton in Hin. discriminate Hin.
  - injection Hplan as <- <- _.
    apply elem_of_cons in Hin as [Hin|Hin]; [discriminate Hin|].
    apply list_elem_of_singleton in Hin. discriminate Hin.
  - injection Hplan as <- <- <- _.
    apply elem_of_cons in Hin as [Hin|Hin]; [discriminate Hin|].
    apply elem_of_cons in Hin as [Hin|Hin]; [discriminate Hin|].
    apply list_elem_of_singleton in Hin. discriminate Hin.
  - injection Hplan as _ _ _ _ Hrest.
    destruct made; [|discriminate Hrest]. by destruct rest.
Qed.

End CallSequences.

(** X4 at work: against a server that accepts everything. *)
Lemma set_isolation_level_stops_at_failure_witness :
  trace (snd (set_isolation_level Scenario.env Scenario.mysql 7%nat
                "REPEATABLE_READ" Scenario.w0))
  = (trace Scenario.w0 ++ isolation_calls 7%nat "REPEATABLE READ")%list.
Proof.
  apply (set_isolation_level_stops_at_failure Scenario.env Scenario.mysql 7%nat
           "REPEATABLE_READ" Scenario.w0).
  apply (bool_decide_unpack _). by vm_compute.
Defined.

Section ConfiguredIsolation.
Context (E : Env) (self : Dialect).

Lemma set_isolation_level_unknown (c : conn) (level : string) (w : World) :
  str_replace "_" " " level ∉ _isolation_lookup self ->
  set_isolation_level E self c level w
  = (Raise (ArgumentError (invalid_level_message self (str_replace "_" " " level))), w).
Proof.
  intros H. unfold set_isolation_level, _set_isolation_level.
  by rewrite bool_decide_eq_false_2.
Qed.

(** X5. A pool whose hook is the dialect's [on_connect] applies the
    configured isolation level on every acquire. With a recognized level
    each acquire that returns has sent SET and COMMIT on the connection it
    hands out, right after taking it from the raw pool; when one of these
    calls raises, the release of the connection on the raw pool is the last
    call made. With a level that is not recognized nothing is sent on the
    connection and its release follows the raw pool's acquire at once. In
    both failures, when the release returns the caller gets the error of
    the hook ([ArgumentError] for a level that is not recognized), the
    connection is no longer in use, and it is idle again when the raw pool
    keeps it; when the release raises, the caller gets the release's
    error. *)
Theorem acquire_applies_configured_isolation
    (level : string) (timeout : option Z) (w : World) (c : conn) :
  let normalized := str_replace "_" " " level in
  let plan := isolation_calls c normalized in
  let w1 := checkout c (answered E w) in
  let run := acquire E (on_connect E self) timeout w in
  isolation_level self = Some level ->
  out (pool_answer E w) = Ok c ->
  in_time E timeout w ->
  (normalized ∉ _isolation_lookup self ->
     trace (snd run) = (trace w ++ [EvPoolAcquire; EvPoolRelease c])%list
     /\ (out (unit_reply E w1 (EvPoolRelease c)) = Ok tt ->
         run = (Raise (ArgumentError (invalid_level_message self normalized)),
                released E c w1)
         /\ (c ∉ pool_used (released E c w1))
         /\ (pool_keeps E (release_returned E c w1) c = true ->
             c ∈ pool_free (released E c w1)))
     /\ (forall e' : exn, out (unit_reply E w1 (EvPoolRelease c)) = Raise e' ->
          run = (Raise e', release_returned E c w1)))
  /\ (normalized ∈ _isolation_lookup self ->
      match run_calls E plan w1 with
      | (Ok _, w2) =>
          run = (Ok c, w2)
          /\ trace w2 = (trace w ++ EvPoolAcquire :: plan)%list
      | (Raise e, w2) =>
          trace (snd run) = (trace w2 ++ [EvPoolRelease c])%list
          /\ (out (unit_reply E w2 (EvPoolRelease c)) = Ok tt ->
              run = (Raise e, released E c w2)
              /\ (c ∉ pool_used (released E c w2))
              /\ (pool_keeps E (release_returned E c w2) c = true ->
                  c ∈ pool_free (released E c w2)))
          /\ (forall e' : exn, out (unit_reply E w2 (EvPoolRelease c)) = Raise e' ->
               run = (Raise e', release_returned E c w2))
      end).
Proof.
  intros normalized plan w1 run Hlevel Hc Ht.
  unfold run, on_connect. rewrite Hlevel.
  rewrite (acquire_hook_run E _ timeout w c Hc Ht). fold w1.
  split; intros Hin.
  - rewrite (set_isolation_level_unknown c level w1 Hin).
    destruct (released_pool E c w1) as (Hused & Hfree & _).
    destruct (out (unit_reply E w1 (EvPoolRelease c))) as [[]|e0];
      (split; [simpl; by rewrite <- app_assoc|split]); try done.
    by intros e' [= <-].
  - rewrite (set_isolation_level_run E self c level w1 Hin).
    fold normalized. fold plan.
    pose proof (run_calls_trace E plan w1) as Hrun.
    destruct (run_calls E plan w1) as [[[]|e] w2]; simpl in Hrun.
    + split; [reflexivity|]. rewrite Hrun. simpl. by rewrite <- app_assoc.
    + destruct (released_pool E c w2) as (Hused & Hfree & _).
      destruct (out (unit_reply E w2 (EvPoolRelease c))) as [[]|e0];
        (split; [reflexivity|split]); try done.
      by intros e' [= <-].
Qed.

(** X6. A transaction the dialect makes with an [isolation] keyword sends
    the driver's begin first and validates the level only afterwards: with
    a level that is not recognized [begin] raises [ArgumentError] when the
    begin command has already gone out, and sends no rollback. With a
    recognized level the SET command and its COMMIT follow the begin
    command on the same connection. *)
Theorem begin_validates_isolation_after_begin
    (c : conn) (kwargs : gmap string string) (level : string) (w : World) :
  let normalized := str_replace "_" " " level in
  let plan := isolation_calls c normalized in
  let w1 := tick (took (unit_reply E w (EvBegin c))) (log (EvBegin c) w) in
  kwargs !! "isolation" = Some level ->
  out (unit_reply E w (EvBegin c)) = Ok tt ->
  (normalized ∉ _isolation_lookup self ->
     begin E (transaction E self c kwargs) w
     = (Raise (ArgumentError (invalid_level_message self normalized)), w1)
     /\ trace w1 = (trace w ++ [EvBegin c])%list)
  /\ (normalized ∈ _isolation_lookup self ->
      begin E (transaction E self c kwargs) w = run_calls E plan w1
      /\ (fst (run_calls E plan w1) = Ok tt ->
          trace (snd (run_calls E plan w1)) = (trace w ++ EvBegin c :: plan)%list)).
Proof.
  intros normalized plan w1 Hkw Hbegin.
  assert (Hrun : begin E (transaction E self c kwargs) w
                 = set_isolation_level E self c level w1).
  { unfold transaction. rewrite Hkw. unfold begin, bind, call. simpl.
    by rewrite Hbegin. }
  rewrite Hrun. split; intros Hin.
  - by rewrite (set_isolation_level_unknown c level w1 Hin).
  - rewrite (set_isolation_level_run E self c level w1 Hin).
    split; [reflexivity|]. fold normalized. fold plan. intros Hok.
    pose proof (run_calls_trace E plan w1) as Htrace. rewrite Hok in Htrace.
    rewrite Htrace. unfold w1. simpl. by rewrite <- app_assoc.
Qed.

End ConfiguredIsolation.

(** X5 at work: a pool of a dialect set to SERIALIZABLE, and of one set to
    a level MySQL does not have. *)
Lemma acquire_applies_configured_isolation_witness :
  trace (snd (acquire Scenario.env (on_connect Scenario.env Examples.serializable)
                (Some 5) Scenario.w0))
  = (trace Scenario.w0 ++ EvPoolAcquire :: isolation_calls 7%nat "SERIALIZABLE")%list
  /\ fst (acquire Scenario.env (on_connect Scenario.env Examples.misconfigured)
            None Scenario.w0)
     = Raise (ArgumentError (invalid_level_message Examples.misconfigured "SNAPSHOT")).
Proof.
  split.
  - destruct (acquire_applies_configured_isolation Scenario.env Examples.serializable
                "SERIALIZABLE" (Some 5) Scenario.w0 7%nat eq_refl eq_refl
                ltac:(simpl; lia)) as [_ H].
    assert (Hin : str_replace "_" " " "SERIALIZABLE"
                  ∈ _isolation_lookup Examples.serializable).
    { apply (bool_decide_unpack _). by vm_compute. }
    specialize (H Hin).
    destruct (run_calls Scenario.env _ _) as [[[]|e] w2] eqn:Hrun.
    + destruct H as [-> Ht]. exact Ht.
    + vm_compute in Hrun. discriminate Hrun.
  - destruct (acquire_applies_configured_isolation Scenario.env Examples.misconfigured
                "SNAPSHOT" None Scenario.w0 7%nat eq_refl eq_refl I) as [H _].
    destruct H as (_ & H & _); [apply (bool_decide_unpack _); by vm_compute|].
    destruct (H eq_refl) as [-> _]. reflexivity.
Defined.

(** X6 at work: a transaction asked to run at a level MySQL does not have. *)
Lemma begin_validates_isolation_after_begin_witness :
  begin Scenario.env
    (transaction Scenario.env Scenario.mysql 7%nat {["isolation" := "SNAPSHOT"]})
    Scenario.w0
  = (Raise (ArgumentError (invalid_level_message Scenario.mysql "SNAPSHOT")),
     tick 1 (log (EvBegin 7%nat) Scenario.w0)).
Proof.
  destruct (begin_validates_isolation_after_begin Scenario.env Scenario.mysql 7%nat
              {["isolation" := "SNAPSHOT"]} "SNAPSHOT" Scenario.w0
              ltac:(by vm_compute) eq_refl)
    as [H _].
  destruct H as [-> _]; [|reflexivity].
  apply (bool_decide_unpack _). by vm_compute.
Defined.

Section ConstructionFacts.
Context (driver_parameters : gset string).

Lemma foldl_take_kwarg (l : list string) (pool_kwargs kwargs : gmap string pyval) (k : string) :
  (foldl take_kwarg (pool_kwargs, kwargs) l).1 !! k
  = (if decide (k ∈ l) then
       match kwargs !! k with
       | Some v => Some v
       | None => pool_kwargs !! k
       end
     else pool_kwargs !! k)
  /\ (foldl take_kwarg (pool_kwargs, kwargs) l).2 !! k
     = (if decide (k ∈ l) then None else kwargs !! k).
Proof.
  revert pool_kwargs kwargs. induction l as [|x l IH]; intros pool_kwargs kwargs.
  - simpl. destruct (decide (k ∈ [])) as [Hin|_]; [|done].
    by apply elem_of_nil in Hin.
  - assert (Hcons : k ∈ x :: l <-> k = x \/ k ∈ l) by apply elem_of_cons.
    simpl. destruct (kwargs !! x) as [v|] eqn:Hx.
    + destruct (IH (<[x:=v]> pool_kwargs) (delete x kwargs)) as [IH1 IH2].
      rewrite IH1, IH2. destruct (decide (k = x)) as [->|Hne].
      * rewrite lookup_delete_eq, lookup_insert_eq, Hx.
        destruct (decide (x ∈ l)), (decide (x ∈ x :: l)); tauto.
      * rewrite lookup_delete_ne, lookup_insert_ne by done.
        destruct (decide (k ∈ l)), (decide (k ∈ x :: l)); tauto.
    + destruct (IH pool_kwargs kwargs) as [IH1 IH2].
      rewrite IH1, IH2. destruct (decide (k = x)) as [->|Hne].
      * rewrite Hx.
        destruct (decide (x ∈ l)), (decide (x ∈ x :: l)); tauto.
      * destruct (decide (k ∈ l)), (decide (k ∈ x :: l)); tauto.
Qed.

Lemma echo_not_init_kwarg : "echo" ∉ init_kwargs driver_parameters.
Proof.
  unfold init_kwargs. intros Hin. apply elem_of_difference in Hin as [_ Hin].
  apply Hin. by apply elem_of_singleton.
Qed.

Lemma dialect_init_lookup (kwargs : gmap string pyval) (k : string) :
  (dialect_init driver_parameters kwargs).1 !! k
  = (if decide (k ∈ init_kwargs driver_parameters) then kwargs !! k else None)
  /\ (dialect_init driver_parameters kwargs).2 !! k
     = (if decide (k ∈ init_kwargs driver_parameters) then None else kwargs !! k).
Proof.
  unfold dialect_init.
  destruct (foldl_take_kwarg (elements (init_kwargs driver_parameters)) ∅ kwargs k)
    as [-> ->].
  rewrite lookup_empty.
  assert (Hel : k ∈ elements (init_kwargs driver_parameters)
                <-> k ∈ init_kwargs driver_parameters) by apply elem_of_elements.
  destruct (decide (k ∈ elements _)), (decide (k ∈ init_kwargs _));
    try tauto; by destruct (kwargs !! k).
Qed.

(** X7. [__init__] splits the keyword arguments in two: the pool gets
    exactly the entries whose name is a parameter of the driver other than
    echo, with their values, and SQLAlchemy's dialect gets exactly the
    others; nothing is lost, nothing is in both, and an echo argument always
    stays with SQLAlchemy. The result is the same in whatever order, and
    however often, the names of the set are walked. *)
Theorem dialect_init_partitions (kwargs : gmap string pyval) :
  let pool_kwargs := (dialect_init driver_parameters kwargs).1 in
  let remaining := (dialect_init driver_parameters kwargs).2 in
  (forall k : string,
      pool_kwargs !! k
      = if decide (k ∈ init_kwargs driver_parameters) then kwargs !! k else None)
  /\ (forall k : string,
        remaining !! k
        = if decide (k ∈ init_kwargs driver_parameters) then None else kwargs !! k)
  /\ pool_kwargs ∪ remaining = kwargs
  /\ pool_kwargs ##ₘ remaining
  /\ pool_kwargs !! "echo" = None
  /\ remaining !! "echo" = kwargs !! "echo"
  /\ (forall names : list string,
        (forall k : string, k ∈ names <-> k ∈ init_kwargs driver_parameters) ->
        foldl take_kwarg (∅, kwargs) names = (pool_kwargs, remaining)).
Proof.
  intros pool_kwargs remaining.
  assert (H1 : forall k : string,
             pool_kwargs !! k
             = if decide (k ∈ init_kwargs driver_parameters) then kwargs !! k else None).
  { intros k. apply dialect_init_lookup. }
  assert (H2 : forall k : string,
             remaining !! k
             = if decide (k ∈ init_kwargs driver_parameters) then None else kwargs !! k).
  { intros k. apply dialect_init_lookup. }
  pose proof echo_not_init_kwarg as Hecho.
  split; [exact H1|]. split; [exact H2|]. split; [|split; [|split; [|split]]].
  - apply map_eq. intros k. rewrite lookup_union, H1, H2.
    destruct (decide (k ∈ init_kwargs driver_parameters)); by destruct (kwargs !! k).
  - apply map_disjoint_spec. intros k x y Hx Hy. rewrite H1 in Hx. rewrite H2 in Hy.
    destruct (decide (k ∈ init_kwargs driver_parameters)); done.
  - rewrite H1. by destruct (decide ("echo" ∈ init_kwargs driver_parameters)).
  - rewrite H2. by destruct (decide ("echo" ∈ init_kwargs driver_parameters)).
  - intros names Hnames.
    destruct (foldl take_kwarg (∅, kwargs) names) as [pk rest] eqn:Hfold.
    f_equal; apply map_eq; intros k;
      destruct (foldl_take_kwarg names ∅ kwargs k) as [Hpk Hrest];
      rewrite Hfold in Hpk, Hrest; simpl in Hpk, Hrest.
    + rewrite Hpk, H1, lookup_empty. specialize (Hnames k).
      destruct (decide (k ∈ names)), (decide (k ∈ init_kwargs driver_parameters));
        try tauto; by destruct (kwargs !! k).
    + rewrite Hrest, H2. specialize (Hnames k).
      destruct (decide (k ∈ names)), (decide (k ∈ init_kwargs driver_parameters));
        tauto.
Qed.

(** X8. The arguments [_init] passes to [create_pool] take loop, host,
    port, user, db and password from the pool object and its URL, whatever
    the keyword arguments say under these names; every other keyword
    argument goes through unchanged. For a pool the dialect builds, an echo
    argument therefore never reaches the driver. *)
Theorem init_args_prefer_url
    (url : URL) (loop : pyval) (kwargs : gmap string pyval)
    (hook : option (conn -> M unit)) :
  let direct := _init_args (mkPoolObject url loop kwargs hook) in
  let built := _init_args (mkPoolObject url loop
                             (dialect_init driver_parameters kwargs).1 hook) in
  direct !! "loop" = Some loop
  /\ direct !! "host" = Some (host url)
  /\ direct !! "port" = Some (port url)
  /\ direct !! "user" = Some (username url)
  /\ direct !! "db" = Some (database url)
  /\ direct !! "password" = Some (password url)
  /\ (forall k : string,
        k ∉ ["loop"; "host"; "port"; "user"; "db"; "password"] ->
        direct !! k = kwargs !! k)
  /\ built !! "echo" = None.
Proof.
  intros direct built. unfold direct, built, _init_args. simpl.
  repeat split; try (by simplify_map_eq).
  - intros k Hk. rewrite !lookup_insert_ne; [done|..];
      intros <-; apply Hk; repeat constructor.
  - rewrite !lookup_insert_ne by done.
    destruct (dialect_init_lookup kwargs "echo") as [-> _].
    pose proof echo_not_init_kwarg.
    by destruct (decide ("echo" ∈ init_kwargs driver_parameters)).
Qed.

End ConstructionFacts.

(** X8 at work: a host given as a keyword argument loses against the URL,
    and a pool size goes through. *)
Lemma init_args_prefer_url_witness :
  _init_args (mkPoolObject Examples.url PyNone Examples.kwargs None) !! "host"
  = Some (PyStr "db.example")
  /\ _init_args (mkPoolObject Examples.url PyNone Examples.kwargs None) !! "maxsize"
     = Some (PyInt 5).
Proof.
  destruct (init_args_prefer_url Examples.driver_parameters Examples.url PyNone
              Examples.kwargs None) as (_ & Hhost & _ & _ & _ & _ & Hother & _).
  split; [exact Hhost|].
  rewrite Hother; [by vm_compute|].
  intros Hin. repeat (apply elem_of_cons in Hin as [Hin|Hin]; [discriminate Hin|]).
  by apply elem_of_nil in Hin.
Defined.

Section ExecutionFacts.
Context (E : Env).
Variable dbapi_acquire : option Z -> M conn.

Lemma async_execute_after_acquire
    (query : string) (timeout : option Z) (args : pyval) (w w1 : World) (c : conn) :
  dbapi_acquire timeout w = (Ok c, w1) ->
  async_execute E dbapi_acquire query timeout args w
  = match rendered E query args c with
    | Raise e => (Raise e, w1)
    | Ok q =>
        let r := unit_reply E w1 (EvQuery c q) in
        let w2 := tick (took r) (log (EvQuery c q) w1) in
        match out r with
        | Raise e => (Raise e, w2)
        | Ok _ =>
            (Ok (rows (conn_result E w2 c)),
             set_status (affected_rows (conn_result E w2 c))
               (set_cursor_description (description (conn_result E w2 c)) w2))
        end
    end.
Proof.
  intros H. unfold async_execute, bind at 1.
  rewrite (acquire_charged_ok dbapi_acquire _ _ _ _ H).
  unfold rendered.
  assert (Hsend : forall q : string,
             (call (EvQuery c q) (fun w => unit_reply E w (EvQuery c q)) ;;;
              result <- (fun w => (Ok (conn_result E w c), w)) ;;
              modify (set_cursor_description (description result)) ;;;
              modify (set_status (affected_rows result)) ;;;
              ret (rows result)) w1
             = match out (unit_reply E w1 (EvQuery c q)) with
               | Raise e => (Raise e, tick (took (unit_reply E w1 (EvQuery c q)))
                                        (log (EvQuery c q) w1))
               | Ok _ =>
                   (Ok (rows (conn_result E (tick (took (unit_reply E w1 (EvQuery c q)))
                                               (log (EvQuery c q) w1)) c)),
                    set_status
                      (affected_rows
                         (conn_result E (tick (took (unit_reply E w1 (EvQuery c q)))
                                           (log (EvQuery c q) w1)) c))
                      (set_cursor_description
                         (description
                            (conn_result E (tick (took (unit_reply E w1 (EvQuery c q)))
                                              (log (EvQuery c q) w1)) c))
                         (tick (took (unit_reply E w1 (EvQuery c q)))
                            (log (EvQuery c q) w1))))
               end).
  { intros q. unfold bind, call, modify, ret.
    destruct (out (unit_reply E w1 (EvQuery c q))); reflexivity. }
  assert (Hfmt : forall a : pyval,
             (escaped <- lift (_escape_args E a c) ;; lift (str_mod E query escaped)) w1
             = (match _escape_args E a c with
                | Ok escaped => str_mod E query escaped
                | Raise e => Raise e
                end, w1)).
  { intros a. unfold bind, lift. destruct (_escape_args E a c); reflexivity. }
  destruct args; unfold bind at 1;
    [unfold ret; apply Hsend | rewrite Hfmt ..];
    match goal with
    | |- context [match ?r with Ok _ => _ | Raise _ => _ end] =>
        destruct r; [apply Hsend|reflexivity]
    end.
Qed.

(** X9. After a successful acquire [async_execute] sends the query as it is
    when there are no arguments. When the arguments cannot be escaped or
    formatted, no query is sent and the cursor's description and status
    stay as they were. When the query itself fails, it is the last call
    made and description and status still show the previous statement. When
    it succeeds, the rows, the description and the status all come from the
    result the connection holds right after the query. *)
Theorem async_execute_outcomes
    (query : string) (timeout : option Z) (args : pyval) (w w1 : World) (c : conn) :
  let run := async_execute E dbapi_acquire query timeout args w in
  dbapi_acquire timeout w = (Ok c, w1) ->
  rendered E query PyNone c = Ok query
  /\ (forall e, rendered E query args c = Raise e -> run = (Raise e, w1))
  /\ (forall q e,
        rendered E query args c = Ok q ->
        out (unit_reply E w1 (EvQuery c q)) = Raise e ->
        fst run = Raise e
        /\ trace (snd run) = (trace w1 ++ [EvQuery c q])%list
        /\ _cursor_description (snd run) = _cursor_description w1
        /\ _status (snd run) = _status w1)
  /\ (forall q,
        rendered E query args c = Ok q ->
        out (unit_reply E w1 (EvQuery c q)) = Ok tt ->
        let result := conn_result E (tick (took (unit_reply E w1 (EvQuery c q)))
                                       (log (EvQuery c q) w1)) c in
        fst run = Ok (rows result)
        /\ trace (snd run) = (trace w1 ++ [EvQuery c q])%list
        /\ _cursor_description (snd run) = description result
        /\ _status (snd run) = affected_rows result).
Proof.
  intros run Hacq. unfold run.
  rewrite (async_execute_after_acquire query timeout args w w1 c Hacq).
  split; [reflexivity|]. split; [|split].
  - by intros e ->.
  - intros q e -> Hq. simpl. by rewrite Hq.
  - intros q -> Hq. simpl. by rewrite Hq.
Qed.

(** X12. [_execute_scalar] returns the first column of the first row of
    what [async_execute], run without a timeout, gives back. A result with
    no row raises [IndexError] and a result that is [None] raises
    [TypeError] instead of yielding a null. Without a type the cell is
    returned as it is; with a type, the cell goes through the result
    processor chosen by the wire type found at [description[0][1]], if there
    is one. *)
Theorem execute_scalar_first_cell
    (supports_unicode_statements positional : bool) (_encoder : string -> string)
    (execute_sequence_format : pyval) (_cursor_execute : string -> pyval -> M unit)
    (stmt : string) (type_ : option (pyval -> option (pyval -> Res pyval)))
    (w w1 w2 : World) (result : pyval) :
  let sent := if negb supports_unicode_statements then _encoder stmt else stmt in
  let default_params := if positional then execute_sequence_format else PyDict [] in
  let run := _execute_scalar E dbapi_acquire supports_unicode_statements positional
               _encoder execute_sequence_format _cursor_execute stmt type_ w in
  _cursor_execute sent default_params w = (Ok tt, w1) ->
  async_execute E dbapi_acquire sent None default_params w1 = (Ok result, w2) ->
  (result = PyTuple [] \/ result = PyList [] -> run = (Raise IndexError, w2))
  /\ (result = PyNone -> run = (Raise TypeError, w2))
  /\ (forall row cell,
        getitem0 result = Ok row -> getitem0 row = Ok cell ->
        match type_ with
        | None => run = (Ok cell, w2)
        | Some processor_for =>
            forall column coltype,
              getitem 0 (_cursor_description w2) = Ok column ->
              getitem 1 column = Ok coltype ->
              run = (match processor_for coltype with
                     | Some proc => proc cell
                     | None => Ok cell
                     end, w2)
        end).
Proof.
  intros sent default_params run Hcur Hexec.
  assert (Hrun : run = (r <- lift (getitem0 result) ;;
                        r <- lift (getitem0 r) ;;
                        match type_ with
                        | Some processor_for =>
                            desc <- (fun w => (Ok (_cursor_description w), w)) ;;
                            column <- lift (getitem 0 desc) ;;
                            coltype <- lift (getitem 1 column) ;;
                            match processor_for coltype with
                            | Some proc => lift (proc r)
                            | None => ret r
                            end
                        | None => ret r
                        end) w2).
  { unfold run, _execute_scalar. fold sent. fold default_params.
    unfold bind at 1. rewrite Hcur. unfold bind at 1. by rewrite Hexec. }
  rewrite Hrun. split; [|split].
  - by intros [-> | ->].
  - by intros ->.
  - intros row cell Hrow Hcell. destruct type_ as [processor_for|].
    + intros column coltype Hcol Htype. unfold bind, lift, ret.
      rewrite Hrow. cbv beta iota. rewrite Hcell. cbv beta iota.
      rewrite Hcol. cbv beta iota. rewrite Htype.
      by destruct (processor_for coltype).
    + unfold bind, lift, ret. rewrite Hrow. cbv beta iota. by rewrite Hcell.
Qed.

End ExecutionFacts.

Section RetrievalFacts.
Context (E : Env).

(** X10. [_execute] with [one] set returns the status with a list of at
    most one row: the empty list exactly when the driver's [fetchrow] gave
    [None], and otherwise the row alone, an empty row included. The status
    is read after the fetch. *)
Theorem execute_one_wraps_row
    (prepared_fetchrow prepared_fetch : list pyval -> M pyval)
    (prepared_get_statusmsg : M pyval)
    (params : list pyval) (w w1 w2 : World) (row status : pyval) :
  prepared_fetchrow params w = (Ok row, w1) ->
  prepared_get_statusmsg w1 = (Ok status, w2) ->
  exists found : list pyval,
    _execute prepared_fetchrow prepared_fetch prepared_get_statusmsg params true w
    = (Ok (status, PyList found), w2)
    /\ (List.length found <= 1)%nat
    /\ (found = [] <-> row = PyNone)
    /\ (row <> PyNone -> found = [row]).
Proof.
  intros Hrow Hstatus.
  exists (match row with PyNone => [] | _ => [row] end).
  split.
  - unfold _execute, bind, ret. rewrite Hrow, Hstatus. by destruct row.
  - destruct row; simpl; repeat split; try done; lia.
Qed.

Lemma process_rows_run (found : list pyval) (w : World) :
  process_rows E found w
  = (out (value_reply E w (EvProcessRows found)),
     tick (took (value_reply E w (EvProcessRows found))) (log (EvProcessRows found) w)).
Proof. reflexivity. Qed.

(** X11. The other retrieval paths hand every row to [process_rows],
    with no test of the row: [__anext__] passes the row the iterator gave,
    alone in a list and also when it is empty or [None], and returns the
    first element of the answer; [many] passes all fetched rows in one
    call, also when there are none, and returns the answer whole. When the
    iterator or the fetch raises, nothing is processed. *)
Theorem retrieval_processes_every_row
    (ctx : Context) (cursor_fetch : Z -> option Z -> M (list pyval))
    (iterator_anext : M pyval) (n : Z) (timeout : timeout_arg) (w : World) :
  (forall row w1,
      iterator_anext w = (Ok row, w1) ->
      let p := value_reply E w1 (EvProcessRows [row]) in
      __anext__ E iterator_anext w
      = (match out p with Ok v => getitem0 v | Raise e => Raise e end,
         tick (took p) (log (EvProcessRows [row]) w1))
      /\ processed (trace (snd (__anext__ E iterator_anext w)))
         = (processed (trace w1) ++ [[row]])%list)
  /\ (forall e w1,
        iterator_anext w = (Raise e, w1) ->
        __anext__ E iterator_anext w = (Raise e, w1))
  /\ (forall found w1,
        cursor_fetch n (effective_timeout ctx timeout) w = (Ok found, w1) ->
        let p := value_reply E w1 (EvProcessRows found) in
        many E ctx cursor_fetch n timeout w
        = (out p, tick (took p) (log (EvProcessRows found) w1))
        /\ processed (trace (snd (many E ctx cursor_fetch n timeout w)))
           = (processed (trace w1) ++ [found])%list)
  /\ (forall e w1,
        cursor_fetch n (effective_timeout ctx timeout) w = (Raise e, w1) ->
        many E ctx cursor_fetch n timeout w = (Raise e, w1)).
Proof.
  split; [|split; [|split]].
  - intros row w1 Hrow p.
    assert (Hrun : __anext__ E iterator_anext w
                   = (match out p with Ok v => getitem0 v | Raise e => Raise e end,
                      tick (took p) (log (EvProcessRows [row]) w1))).
    { unfold __anext__, bind at 1. rewrite Hrow. unfold bind, lift.
      rewrite process_rows_run. fold p. by destruct (out p). }
    rewrite Hrun. split; [reflexivity|]. simpl. rewrite processed_app. simpl. done.
  - intros e w1 Hrow. unfold __anext__, bind at 1. by rewrite Hrow.
  - intros found w1 Hfetch p.
    assert (Hrun : many E ctx cursor_fetch n timeout w
                   = (out p, tick (took p) (log (EvProcessRows found) w1))).
    { unfold many. fold (effective_timeout ctx timeout). unfold bind.
      rewrite Hfetch. apply process_rows_run. }
    rewrite Hrun. split; [reflexivity|]. simpl. rewrite processed_app. simpl. done.
  - intros e w1 Hfetch. unfold many. fold (effective_timeout ctx timeout).
    unfold bind. by rewrite Hfetch.
Qed.

End RetrievalFacts.

Section IsolationReadFacts.
Context (E : Env) (self : Dialect).

Lemma bind_ext {A B} (m : M A) (k k' : A -> M B) (w : World) :
  (forall a w', k a w' = k' a w') -> bind m k w = bind m k' w.
Proof.
  intros H. unfold bind. destruct (m w) as [[a|e] w']; [apply H|reflexivity].
Qed.

Lemma get_isolation_level_parts (c : conn) (w : World) :
  get_isolation_level E self c w
  = ((match server_version_info w with
      | None =>
          v <- _get_server_version_info E c ;;
          modify (set_server_version_info (Some v))
      | Some _ => ret tt
      end) ;;; read_level E self c) w.
Proof.
  unfold get_isolation_level. unfold bind at 1. cbv beta iota.
  apply bind_ext. intros _ w0. unfold read_level.
  apply bind_ext. intros _ w1. apply bind_ext. intros info w2.
  apply bind_ext. intros recent w3. by destruct recent.
Qed.

Lemma get_isolation_level_cached (c : conn) (w : World) (v : list Version.comp) :
  server_version_info w = Some v ->
  get_isolation_level E self c w = read_level E self c w.
Proof.
  intros H. rewrite get_isolation_level_parts, H. unfold bind at 1, ret.
  reflexivity.
Qed.

Lemma tuple_ge_5_7_20 (a b c : Z) (rest : list Version.comp) :
  tuple_ge (Version.VInt a :: Version.VInt b :: Version.VInt c :: rest)
           [Version.VInt 5; Version.VInt 7; Version.VInt 20]
  = Ok (at_least_5_7_20 a b c).
Proof.
  unfold at_least_5_7_20. simpl.
  destruct (Z.eqb_spec a 5) as [->|Ha].
  - simpl. destruct (Z.eqb_spec b 7) as [->|Hb].
    + simpl. destruct (Z.eqb_spec c 20) as [->|Hc]; [by destruct rest|done].
    + f_equal. destruct (Z.ltb_spec 7 b), (Z.leb_spec 7 b); simpl; try lia; done.
  - f_equal. destruct (Z.ltb_spec 5 a), (Z.leb_spec 5 a); simpl; try lia; done.
Qed.

(** X13. With a cached version and a cursor that opens,
    [get_isolation_level] asks right away for the session variable. A
    server that is not MySQL is asked for tx_isolation whatever its
    version. A MySQL whose version starts with three integers is asked
    for transaction_isolation exactly when these are at least (5, 7, 20) in
    the order of tuples, whatever follows them. A MySQL whose version is
    (5, 7, text, ...) makes the comparison raise [TypeError]: nothing is
    asked and the cursor stays open. *)
Theorem isolation_variable_by_version (c : conn) (w : World) (v : list Version.comp) :
  let w1 := tick (took (unit_reply E w (EvCursor c))) (log (EvCursor c) w) in
  server_version_info w = Some v ->
  out (unit_reply E w (EvCursor c)) = Ok tt ->
  (_is_mysql self (Some v) = false ->
     get_isolation_level E self c w
     = (execute E c (isolation_query false) ;;; fetch_level E c) w1)
  /\ (forall a b n rest,
        _is_mysql self (Some v) = true ->
        v = Version.VInt a :: Version.VInt b :: Version.VInt n :: rest ->
        get_isolation_level E self c w
        = (execute E c (isolation_query (at_least_5_7_20 a b n)) ;;; fetch_level E c) w1)
  /\ (forall s rest,
        _is_mysql self (Some v) = true ->
        v = Version.VInt 5 :: Version.VInt 7 :: Version.VStr s :: rest ->
        get_isolation_level E self c w = (Raise TypeError, w1)
        /\ trace w1 = (trace w ++ [EvCursor c])%list).
Proof.
  intros w1 Hv Hcursor.
  assert (Hrun : get_isolation_level E self c w
                 = (recent <- is_recent self (Some v) ;;
                    execute E c (isolation_query recent) ;;;
                    fetch_level E c) w1).
  { rewrite (get_isolation_level_cached c w v Hv).
    unfold read_level, bind at 1, cursor, call. rewrite Hcursor.
    fold w1. unfold bind at 1. cbv beta iota.
    replace (server_version_info w1) with (Some v) by (by rewrite <- Hv).
    reflexivity. }
  rewrite Hrun. unfold is_recent. split; [|split].
  - by intros ->.
  - intros a b n rest -> ->. rewrite tuple_ge_5_7_20. reflexivity.
  - intros s rest -> ->. split; reflexivity.
Qed.

(** X14. When the server returns no row, [get_isolation_level] raises and
    leaves its cursor open: with a cached version the answer [None] to the
    isolation query gives [NotImplementedError], and without one the answer
    [None] to the version query gives [TypeError] and the cache stays
    empty; in both cases the fetch is the last call made. *)
Theorem no_row_leaves_cursor_open (c : conn) (w : World) (sql : string) :
  let w1 := tick (took (unit_reply E w (EvCursor c))) (log (EvCursor c) w) in
  let w2 := tick (took (unit_reply E w1 (EvExecute c sql))) (log (EvExecute c sql) w1) in
  let w3 := tick (took (value_reply E w2 (EvFetchone c))) (log (EvFetchone c) w2) in
  out (unit_reply E w (EvCursor c)) = Ok tt ->
  out (unit_reply E w1 (EvExecute c sql)) = Ok tt ->
  out (value_reply E w2 (EvFetchone c)) = Ok PyNone ->
  trace w3 = (trace w ++ [EvCursor c; EvExecute c sql; EvFetchone c])%list
  /\ (forall recent,
        server_version_info w <> None ->
        is_recent self (server_version_info w) w1 = (Ok recent, w1) ->
        sql = isolation_query recent ->
        get_isolation_level E self c w = (Raise NotImplementedError, w3))
  /\ (server_version_info w = None ->
      sql = "SELECT VERSION()" ->
      get_isolation_level E self c w = (Raise TypeError, w3)
      /\ server_version_info w3 = None).
Proof.
  intros w1 w2 w3 Hcursor Hexec Hrow. split; [|split].
  - unfold w3, w2, w1. simpl. by rewrite <- !app_assoc.
  - intros recent Hcached Hrecent ->.
    destruct (server_version_info w) as [v|] eqn:Hv; [|done].
    rewrite (get_isolation_level_cached c w v Hv).
    unfold read_level, bind at 1, cursor, call. rewrite Hcursor. fold w1.
    unfold bind at 1. cbv beta iota.
    replace (server_version_info w1) with (Some v) by (by rewrite <- Hv).
    unfold bind at 1. rewrite Hrecent.
    unfold bind at 1, execute, call. rewrite Hexec. fold w2.
    unfold fetch_level, bind, fetchone, call. rewrite Hrow. reflexivity.
  - intros Hv ->. rewrite get_isolation_level_parts, Hv.
    unfold bind at 1 2. unfold _get_server_version_info.
    unfold bind at 1, cursor, call. rewrite Hcursor. fold w1.
    unfold bind at 1, execute, call. rewrite Hexec. fold w2.
    unfold bind at 1, fetchone, call. rewrite Hrow. fold w3.
    split; [reflexivity|]. unfold w3, w2, w1. simpl. exact Hv.
Qed.

Lemma ensures_bind {A B} (R : B -> World -> Prop) (m : M A) (k : A -> M B) :
  (forall a, ensures R (k a)) -> ensures R (bind m k).
Proof.
  intros Hk w w' b. unfold bind. destruct (m w) as [[a|e] w1]; [|done].
  apply Hk.
Qed.

Lemma str_replace_absent (a b : ascii) (s : string) :
  a <> b ->
  VersionSpec.all_chars (fun ch => negb (Ascii.eqb ch a)) (str_replace a b s) = true.
Proof.
  intros Hab. induction s as [|ch s IH]; simpl; [done|].
  rewrite IH, andb_true_r. destruct (Ascii.eqb_spec ch a) as [->|Hne].
  - destruct (Ascii.eqb_spec b a) as [->|]; done.
  - by destruct (Ascii.eqb_spec ch a).
Qed.

Lemma str_replace_length (a b : ascii) (s : string) :
  String.length (str_replace a b s) = String.length s.
Proof. induction s as [|ch s IH]; simpl; [done|]. by rewrite IH. Qed.

Lemma bind_assoc {A B C} (m : M A) (k : A -> M B) (k' : B -> M C) (w : World) :
  bind (bind m k) k' w = bind m (fun a => bind (k a) k') w.
Proof. unfold bind. by destruct (m w) as [[a|e] w']. Qed.

Lemma get_isolation_level_asks (c : conn) (w : World) :
  get_isolation_level E self c w = (ask_level E self c ;;; fetch_level E c) w.
Proof.
  unfold get_isolation_level, ask_level.
  rewrite bind_assoc. apply bind_ext. intros cached w0.
  rewrite bind_assoc. apply bind_ext. intros _ w1.
  rewrite bind_assoc. apply bind_ext. intros _ w2.
  rewrite bind_assoc. apply bind_ext. intros info w3.
  rewrite bind_assoc. apply bind_ext. intros recent w4.
  by destruct recent.
Qed.

Lemma as_text_returns (val : pyval) (otherwise : exn) (w w' : World) (text : string) :
  as_text E val otherwise w = (Ok text, w') -> column_text E val text /\ w' = w.
Proof.
  unfold as_text, column_text.
  destruct val; unfold lift, raise, ret; try done.
  - intros [= <- <-]. split; [by left|done].
  - destruct (bytes_decode E s) as [t|e] eqn:Hb; [|done].
    intros [= <- <-]. split; [|done]. right. by exists s.
Qed.

Lemma fetch_level_returns (c : conn) (w w' : World) (s : string) :
  fetch_level E c w = (Ok s, w') ->
  exists text : string,
    first_column_fetched E c w text
    /\ s = str_replace "-" " " (str_upper E text)
    /\ w' = fetched_and_closed E c w.
Proof.
  unfold fetch_level, bind at 1, fetchone, call.
  destruct (out (value_reply E w (EvFetchone c))) as [row|e] eqn:Hrow; [|done].
  set (w1 := tick _ (log (EvFetchone c) w)).
  assert (Hrest : (val <- lift (getitem0 row) ;;
                   close E c ;;;
                   val <- as_text E val AttributeError ;;
                   ret (str_replace "-" " " (str_upper E val))) w1 = (Ok s, w') ->
                  exists text : string,
                    first_column_fetched E c w text
                    /\ s = str_replace "-" " " (str_upper E text)
                    /\ w' = fetched_and_closed E c w).
  { unfold bind at 1, lift at 1.
    destruct (getitem0 row) as [val|e] eqn:Hval; [|done].
    unfold bind at 1, close, call.
    destruct (out (unit_reply E w1 (EvCursorClose c))) as [[]|e]; [|done].
    change (tick (took (unit_reply E w1 (EvCursorClose c))) (log (EvCursorClose c) w1))
      with (fetched_and_closed E c w).
    unfold bind at 1.
    destruct (as_text E val AttributeError (fetched_and_closed E c w))
      as [[text|e] w3] eqn:Htext; [|done].
    apply as_text_returns in Htext as [Hcol ->].
    intros [= <- <-]. exists text. split; [|done].
    exists row, val. rewrite Hrow. done. }
  destruct row; try apply Hrest. done.
Qed.

Lemma execute_returns (c : conn) (sql : string) (w w' : World) :
  execute E c sql w = (Ok tt, w') -> trace w' = (trace w ++ [EvExecute c sql])%list.
Proof.
  unfold execute, call.
  destruct (out (unit_reply E w (EvExecute c sql))) as [[]|e]; [|done].
  by intros [= <-].
Qed.

Lemma ask_level_ends_with_query (c : conn) :
  ensures (fun _ w' =>
             exists (d : list event) (recent : bool),
               trace w' = (d ++ [EvExecute c (isolation_query recent)])%list)
    (ask_level E self c).
Proof.
  unfold ask_level. do 5 (apply ensures_bind; intros ?).
  intros w w' [] Hexec. apply execute_returns in Hexec. by eexists _, _.
Qed.

(** X15. Whenever [get_isolation_level] returns, it has sent the isolation
    query as its last call before the fetch, the driver has answered the
    fetch with a row, and the name returned is the upper-cased text of the
    first column of that row, decoded when it is [bytes], with every dash
    replaced by a space: it holds no dash and has the length of the
    upper-cased text. After the fetch the cursor is closed, and this is the
    last call made. *)
Theorem get_isolation_level_returns_normalized
    (c : conn) (w w' : World) (level : string) :
  get_isolation_level E self c w = (Ok level, w') ->
  VersionSpec.all_chars no_dash level = true
  /\ (exists (w2 : World) (text : string),
        ask_level E self c w = (Ok tt, w2)
        /\ (exists (d : list event) (recent : bool),
              trace w2 = (d ++ [EvExecute c (isolation_query recent)])%list)
        /\ first_column_fetched E c w2 text
        /\ level = str_replace "-" " " (str_upper E text)
        /\ String.length level = String.length (str_upper E text)
        /\ w' = fetched_and_closed E c w2
        /\ trace w' = (trace w2 ++ [EvFetchone c; EvCursorClose c])%list)
  /\ exists d : list event, trace w' = (d ++ [EvCursorClose c])%list.
Proof.
  intros Hrun. rewrite get_isolation_level_asks in Hrun.
  unfold bind at 1 in Hrun.
  destruct (ask_level E self c w) as [[[]|e] w2] eqn:Hask; [|done].
  apply fetch_level_returns in Hrun as (text & Hcol & -> & ->).
  assert (Htrace : trace (fetched_and_closed E c w2)
                   = (trace w2 ++ [EvFetchone c; EvCursorClose c])%list).
  { unfold fetched_and_closed. simpl. by rewrite <- app_assoc. }
  split; [apply (str_replace_absent "-" " "); done|]. split.
  - exists w2, text. repeat split; try done.
    + exact (ask_level_ends_with_query c w w2 tt Hask).
    + apply str_replace_length.
  - exists (trace w2 ++ [EvFetchone c])%list. rewrite Htrace.
    by rewrite <- app_assoc.
Qed.

End IsolationReadFacts.

(** X7 at work: the pool size goes to the pool, the strategy does not. *)
Lemma dialect_init_partitions_witness :
  (dialect_init Examples.driver_parameters Examples.kwargs).1 !! "maxsize"
  = Some (PyInt 5)
  /\ (dialect_init Examples.driver_parameters Examples.kwargs).2 !! "strategy"
     = Some (PyStr "plain").
Proof.
  destruct (dialect_init_partitions Examples.driver_parameters Examples.kwargs)
    as (Hpool & Hrest & _).
  rewrite Hpool, Hrest. by vm_compute.
Defined.

(** X9 at work: an argument that cannot be escaped, and a query that fails. *)
Lemma async_execute_outcomes_witness :
  fst (async_execute Scenario.env (acquire Scenario.env None) "SELECT %s" None
         (PyTuple [PyList []]) Scenario.w0)
  = Raise ValueError
  /\ fst (async_execute Examples.failing_query_env
            (acquire Examples.failing_query_env None) "SELECT 1" None PyNone Scenario.w0)
     = Raise (DriverError 2).
Proof.
  split.
  - destruct (async_execute_outcomes Scenario.env (acquire Scenario.env None)
                "SELECT %s" None (PyTuple [PyList []]) Scenario.w0 _ 7%nat eq_refl)
      as (_ & H & _).
    by rewrite (H ValueError eq_refl).
  - destruct (async_execute_outcomes Examples.failing_query_env
                (acquire Examples.failing_query_env None)
                "SELECT 1" None PyNone Scenario.w0 _ 7%nat eq_refl)
      as (_ & _ & H & _).
    by destruct (H "SELECT 1" (DriverError 2) eq_refl eq_refl) as [-> _].
Defined.

(** X10 at work: an empty row is wrapped, not dropped. *)
Lemma execute_one_wraps_row_witness :
  exists found : list pyval,
    _execute Examples.fetchrow_empty Examples.fetch_nothing Examples.status_zero
      [] true Scenario.w0
    = (Ok (PyInt 0, PyList found), Scenario.w0)
    /\ (List.length found <= 1)%nat
    /\ (found = [] <-> PyTuple [] = PyNone)
    /\ (PyTuple [] <> PyNone -> found = [PyTuple []]).
Proof.
  apply (execute_one_wraps_row Examples.fetchrow_empty Examples.fetch_nothing
           Examples.status_zero [] Scenario.w0 Scenario.w0 Scenario.w0
           (PyTuple []) (PyInt 0)); reflexivity.
Defined.

(** X11 at work: the iterator's empty row is processed and returned. *)
Lemma retrieval_processes_every_row_witness :
  fst (__anext__ Scenario.env Examples.anext_empty Scenario.w0) = Ok (PyTuple [])
  /\ processed (trace (snd (many Scenario.env (mkContext None "SELECT 1")
                              Examples.fetch_two 2 DEFAULT Scenario.w0)))
     = [[PyTuple [PyInt 1]; PyTuple [PyInt 2]]].
Proof.
  destruct (retrieval_processes_every_row Scenario.env (mkContext None "SELECT 1")
              Examples.fetch_two Examples.anext_empty 2 DEFAULT Scenario.w0)
    as (Hnext & _ & Hmany & _).
  split.
  - by destruct (Hnext (PyTuple []) Scenario.w0 eq_refl) as [-> _].
  - by destruct (Hmany _ Scenario.w0 eq_refl) as [_ ->].
Defined.

(** X12 at work: a default that selects no row. *)
Lemma execute_scalar_first_cell_witness :
  fst (_execute_scalar Scenario.env (acquire Scenario.env None) true true
         (fun s => s) (PyTuple []) Examples.cursor_execute_ok "SELECT now()" None
         Scenario.w0)
  = Raise IndexError.
Proof.
  destruct (execute_scalar_first_cell Scenario.env (acquire Scenario.env None)
              true true (fun s => s) (PyTuple []) Examples.cursor_execute_ok
              "SELECT now()" None Scenario.w0 Scenario.w0 _ (PyTuple [])
              eq_refl eq_refl) as (H & _).
  by rewrite H; [|left].
Defined.

(** X13 at work: MySQL 8.0.31 is asked for transaction_isolation. *)
Lemma isolation_variable_by_version_witness :
  get_isolation_level Scenario.env Scenario.mysql 7%nat Examples.w_cached
  = (execute Scenario.env 7%nat "SELECT @@transaction_isolation" ;;;
     fetch_level Scenario.env 7%nat)
      (tick 1 (log (EvCursor 7%nat) Examples.w_cached)).
Proof.
  destruct (isolation_variable_by_version Scenario.env Scenario.mysql 7%nat
              Examples.w_cached _ eq_refl eq_refl) as (_ & H & _).
  apply (H 8 0 31 []); reflexivity.
Defined.

(** X14 at work: a server that returns no row to the version query. *)
Lemma no_row_leaves_cursor_open_witness :
  fst (get_isolation_level Examples.silent_env Scenario.mysql 7%nat Scenario.w0)
  = Raise TypeError
  /\ trace (snd (get_isolation_level Examples.silent_env Scenario.mysql 7%nat Scenario.w0))
     = [EvCursor 7%nat; EvExecute 7%nat "SELECT VERSION()"; EvFetchone 7%nat].
Proof.
  destruct (no_row_leaves_cursor_open Examples.silent_env Scenario.mysql 7%nat
              Scenario.w0 "SELECT VERSION()" eq_refl eq_refl eq_refl) as (Ht & _ & H).
  destruct (H eq_refl eq_refl) as [-> _]. split; [reflexivity|exact Ht].
Defined.

(** X15 at work: REPEATABLE-READ comes back as REPEATABLE READ. *)
Lemma get_isolation_level_returns_normalized_witness :
  VersionSpec.all_chars no_dash "REPEATABLE READ" = true
  /\ (exists (w2 : World) (text : string),
        ask_level Scenario.env Scenario.mysql 7%nat Scenario.w0 = (Ok tt, w2)
        /\ (exists (d : list event) (recent : bool),
              trace w2 = (d ++ [EvExecute 7%nat (isolation_query recent)])%list)
        /\ first_column_fetched Scenario.env 7%nat w2 text
        /\ "REPEATABLE READ" = str_replace "-" " " (str_upper Scenario.env text)
        /\ String.length "REPEATABLE READ" = String.length (str_upper Scenario.env text)
        /\ snd (get_isolation_level Scenario.env Scenario.mysql 7%nat Scenario.w0)
           = fetched_and_closed Scenario.env 7%nat w2
        /\ trace (snd (get_isolation_level Scenario.env Scenario.mysql 7%nat Scenario.w0))
           = (trace w2 ++ [EvFetchone 7%nat; EvCursorClose 7%nat])%list)
  /\ exists d : list event,
      trace (snd (get_isolation_level Scenario.env Scenario.mysql 7%nat Scenario.w0))
      = (d ++ [EvCursorClose 7%nat])%list.
Proof.
  apply (get_isolation_level_returns_normalized Scenario.env Scenario.mysql 7%nat
           Scenario.w0). by vm_compute.
Defined.

Section CachedVersionFacts.
Context (E : Env) (self : Dialect).

Lemma fetch_level_emits (c : conn) : emits 0 (fetch_level E c).
Proof.
  unfold fetch_level. apply emits_bind0; [apply fetchone_emits|intros row].
  assert (Hrow : emits 0 (val <- lift (getitem0 row) ;;
                          close E c ;;;
                          val <- as_text E val AttributeError ;;
                          ret (str_replace "-" " " (str_upper E val)))).
  { repeat (apply emits_bind0; [|intros ?]);
      first [apply close_emits | apply emits_lift | apply as_text_emits
            | apply emits_ret]. }
  destruct row; first [apply emits_raise | exact Hrow].
Qed.

Lemma read_level_emits (c : conn) : emits 0 (read_level E self c).
Proof.
  unfold read_level. apply emits_bind0; [apply cursor_emits|intros _].
  apply emits_bind0; [apply (emits_pure (fun w => Ok (server_version_info w)))|intros info].
  apply emits_bind0.
  { unfold is_recent. destruct (_is_mysql self info); [|apply emits_ret].
    destruct info; [apply emits_lift|apply emits_raise]. }
  intros recent. apply emits_bind0; [|intros _; apply fetch_level_emits].
  destruct recent; by apply execute_emits.
Qed.

Lemma get_server_version_info_returns
    (c : conn) (w w' : World) (v : list Version.comp) :
  let w1 := tick (took (unit_reply E w (EvCursor c))) (log (EvCursor c) w) in
  let w2 := tick (took (unit_reply E w1 (EvExecute c "SELECT VERSION()")))
                 (log (EvExecute c "SELECT VERSION()") w1) in
  _get_server_version_info E c w = (Ok v, w') ->
  exists text : string,
    first_column_fetched E c w2 text
    /\ v = Version._parse_server_version text
    /\ w' = fetched_and_closed E c w2.
Proof.
  intros w1 w2. unfold _get_server_version_info.
  unfold bind at 1, cursor, call.
  destruct (out (unit_reply E w (EvCursor c))) as [[]|e]; [|done]. fold w1.
  unfold bind at 1, execute, call.
  destruct (out (unit_reply E w1 (EvExecute c "SELECT VERSION()"))) as [[]|e]; [|done].
  fold w2. unfold bind at 1, fetchone, call.
  destruct (out (value_reply E w2 (EvFetchone c))) as [row|e] eqn:Hrow; [|done].
  unfold bind at 1, lift at 1.
  destruct (getitem0 row) as [val|e] eqn:Hval; [|done].
  unfold bind at 1, close, call.
  set (w3 := tick _ (log (EvFetchone c) w2)).
  destruct (out (unit_reply E w3 (EvCursorClose c))) as [[]|e]; [|done].
  change (tick (took (unit_reply E w3 (EvCursorClose c))) (log (EvCursorClose c) w3))
    with (fetched_and_closed E c w2).
  unfold bind at 1.
  destruct (as_text E val TypeError (fetched_and_closed E c w2))
    as [[text|e] w4] eqn:Htext; [|done].
  apply (as_text_returns E) in Htext as [Hcol ->].
  intros [= <- <-]. exists text. split; [|done].
  exists row, val. by rewrite Hrow.
Qed.

(** X16. A first call of [get_isolation_level] that returns has opened a
    cursor and sent the version query, the driver has answered the fetch
    that follows with a row, and the cache then holds the parsed text of the
    first column of that row, decoded when it is [bytes]; this tuple is not
    empty. *)
Theorem first_call_caches_parsed_version
    (c : conn) (w w' : World) (level : string) :
  let w1 := tick (took (unit_reply E w (EvCursor c))) (log (EvCursor c) w) in
  let w2 := tick (took (unit_reply E w1 (EvExecute c "SELECT VERSION()")))
                 (log (EvExecute c "SELECT VERSION()") w1) in
  server_version_info w = None ->
  get_isolation_level E self c w = (Ok level, w') ->
  exists text : string,
    first_column_fetched E c w2 text
    /\ server_version_info w' = Some (Version._parse_server_version text)
    /\ Version._parse_server_version text <> [].
Proof.
  intros w1 w2 Hv Hrun. rewrite get_isolation_level_parts, Hv in Hrun.
  unfold bind at 1 2 in Hrun.
  destruct (_get_server_version_info E c w) as [[v|e] w3] eqn:Hg; [|done].
  unfold modify in Hrun.
  destruct (get_server_version_info_returns c w w3 v Hg) as (text & Hcol & -> & _).
  exists text. split; [exact Hcol|].
  split; [|apply VersionMore.parse_server_version_nonempty].
  destruct (read_level_emits c (set_server_version_info
                                  (Some (Version._parse_server_version text)) w3))
    as [Hkeep _].
  rewrite Hrun in Hkeep. exact Hkeep.
Qed.

End CachedVersionFacts.

(** X16 at work: the cache after a first call against a MySQL 8.0.31. *)
Lemma first_call_caches_parsed_version_witness :
  exists text : string,
    first_column_fetched Scenario.env 7%nat
      (tick 1 (log (EvExecute 7%nat "SELECT VERSION()")
                 (tick 1 (log (EvCursor 7%nat) Scenario.w0)))) text
    /\ server_version_info
         (snd (get_isolation_level Scenario.env Scenario.mysql 7%nat Scenario.w0))
       = Some (Version._parse_server_version text)
    /\ Version._parse_server_version text <> [].
Proof.
  apply (first_call_caches_parsed_version Scenario.env Scenario.mysql 7%nat
           Scenario.w0 _ "REPEATABLE READ" eq_refl).
  by vm_compute.
Defined.
